(** * Unsorted segment sum and its backward reconstruction

    A shallow embedding of [src/ops/segment_ops.ts]: the operator
    [SegmentOps.unsortedSegmentSum] and the helper [gatherDropNegatives]
    that rebuilds the gradient of the input from the gradient of the
    per-segment sums.

    Tensors are taken denotationally: a dtype, a shape and a function from
    multi-indices to values.  Values are exact integers; rounding of
    floating-point sums is outside this development.  Everything the source
    file imports ([util], [axis_util], the array primitives, the engine and
    its backend) lives outside [segment_ops.ts]; it is modelled after the
    library the code calls, in the conventions that lines 55-61 and 89-91
    rely on, and from the written specification where those are silent;
    each such definition says so.  The decorators [@doc] and [@operation] of
    the method carry no computation of the operator and are left out. *)

From Stdlib Require Import String.
From Stdlib Require Import ZArith QArith Qround Bool Lia Arith.
From Stdlib Require Import List Permutation.
Import ListNotations.

Local Open Scope string_scope.
Local Open Scope list_scope.
Local Open Scope nat_scope.

(* ------------------------------------------------------------------ *)
(** ** Tensors *)

Inductive DataType := DFloat32 | DInt32 | DBool.

Definition dtype_eqb (a b : DataType) : bool :=
  match a, b with
  | DFloat32, DFloat32 | DInt32, DInt32 | DBool, DBool => true
  | _, _ => false
  end.

Record Tensor := mkTensor {
  dtype : DataType;
  shape : list nat;
  values : list nat -> Z
}.

Definition rank (t : Tensor) : nat := length (shape t).

(** [util.sizeFromShape]: the number of elements of a shape. *)
Definition sizeFromShape (s : list nat) : nat := fold_right Nat.mul 1 s.

Definition size (t : Tensor) : nat := sizeFromShape (shape t).

(** A multi-index addresses an element of a shape when it has the shape's
    length and every component is below the matching dimension. *)
Fixpoint inRange (s idx : list nat) : bool :=
  match s, idx with
  | [], [] => true
  | d :: s', i :: idx' => (i <? d) && inRange s' idx'
  | _, _ => false
  end.

(** All multi-indices of a shape in row-major order, and the values of a
    tensor read out in that order. *)
Fixpoint indicesOf (s : list nat) : list (list nat) :=
  match s with
  | [] => [[]]
  | d :: s' => flat_map (fun i => map (cons i) (indicesOf s')) (seq 0 d)
  end.

Definition dataSync (t : Tensor) : list Z := map (values t) (indicesOf (shape t)).

(** Writing [v] at position [k] of a list; a position past the end leaves
    the list as it is. *)
Fixpoint replaceAt {A} (k : nat) (l : list A) (v : A) : list A :=
  match l, k with
  | [], _ => []
  | _ :: l', 0 => v :: l'
  | a :: l', S k' => a :: replaceAt k' l' v
  end.

(** Tensors built from literals, for the concrete scenarios. *)
Definition tensor1d (dt : DataType) (l : list Z) : Tensor :=
  {| dtype := dt; shape := [length l];
     values := fun idx => nth (nth 0 idx 0) l 0%Z |}.

(* ------------------------------------------------------------------ *)
(** ** Errors *)

Inductive Error :=
| NotATensorError (argName functionName : string)
| AssertError (msg : string)
| ShapeMismatchError (shapeA shapeB : list nat).

Inductive Result (A : Type) :=
| Ok (a : A)
| Throw (e : Error).
Arguments Ok {A} a.
Arguments Throw {A} e.

Definition rbind {A B} (r : Result A) (k : A -> Result B) : Result B :=
  match r with
  | Ok a => k a
  | Throw e => Throw e
  end.

Declare Scope result_scope.
Delimit Scope result_scope with result.
Notation "x <- c ;; k" := (rbind c (fun x => k))
  (at level 61, c at next level, right associativity) : result_scope.

(* ------------------------------------------------------------------ *)
(** ** Broadcasting *)

Definition padLeft (r : nat) (s : list nat) : list nat :=
  repeat 1 (r - length s) ++ s.

Definition broadcastDim (x y : nat) : option nat :=
  if x =? y then Some x
  else if x =? 1 then Some y
  else if y =? 1 then Some x
  else None.

Fixpoint broadcastDims (a b : list nat) : option (list nat) :=
  match a, b with
  | [], [] => Some []
  | x :: a', y :: b' =>
      match broadcastDim x y, broadcastDims a' b' with
      | Some d, Some ds => Some (d :: ds)
      | _, _ => None
      end
  | _, _ => None
  end.

(** Modelled from the spec: the array primitive library is not in
    [segment_ops.ts]; the elementwise primitives broadcast their operands.
    Shapes are aligned on their trailing dimensions, a missing or singleton
    dimension stretches to the other operand's, anything else is a shape
    mismatch. *)
Definition assertAndGetBroadcastShape (a b : list nat) : option (list nat) :=
  let r := Nat.max (length a) (length b) in
  broadcastDims (padLeft r a) (padLeft r b).

Fixpoint squashUnit (s idx : list nat) : list nat :=
  match s, idx with
  | d :: s', i :: idx' => (if d =? 1 then 0 else i) :: squashUnit s' idx'
  | _, _ => []
  end.

(** The position of an operand of shape [s] read for the position [idx] of
    the broadcast result. *)
Definition broadcastIndex (s idx : list nat) : list nat :=
  squashUnit s (skipn (length idx - length s) idx).

Definition broadcastOp (f : Z -> Z -> Z) (dt : DataType) (a b : Tensor)
  : Result Tensor :=
  match assertAndGetBroadcastShape (shape a) (shape b) with
  | Some s =>
      Ok {| dtype := dt; shape := s;
            values := fun idx =>
              f (values a (broadcastIndex (shape a) idx))
                (values b (broadcastIndex (shape b) idx)) |}
  | None => Throw (ShapeMismatchError (shape a) (shape b))
  end.

(** The tensor [t] stretched to shape [s]. *)
Definition broadcastTo (s : list nat) (t : Tensor) : Tensor :=
  {| dtype := dtype t; shape := s;
     values := fun idx => values t (broadcastIndex (shape t) idx) |}.

(* ------------------------------------------------------------------ *)
(** ** The array primitives used by [segment_ops.ts] *)

Definition permuteList {A} (d : A) (p : list nat) (l : list A) : list A :=
  map (fun a => nth a l d) p.

Fixpoint indexOf (j : nat) (p : list nat) : nat :=
  match p with
  | [] => 0
  | a :: p' => if a =? j then 0 else S (indexOf j p')
  end.

Module axis_util.

(** [axis_util.axesAreInnerMostDims] is not in [segment_ops.ts].  As in the
    library: the axes are the innermost ones when, read from the last, they
    are [rank - 1], [rank - 2], ... *)
Definition axesAreInnerMostDims (axes : list nat) (rank : nat) : bool :=
  forallb (fun i =>
             (Z.of_nat (nth (length axes - i - 1) axes 0%nat)
              =? Z.of_nat rank - 1 - Z.of_nat i)%Z)
          (seq 0 (length axes)).

(** [axis_util.getAxesPermutation] is not in [segment_ops.ts].  As in the
    library, and as lines 58-61 expect (after the permutation the axis is
    the innermost one): the permutation is absent when the axes already are
    the innermost ones; otherwise it lists the other dimensions in their
    order and the axes after them.  The spec's AxisNormalizer describes a
    move to the front instead; that one is [frontPermutation] below. *)
Definition getAxesPermutation (axes : list nat) (rank : nat)
  : option (list nat) :=
  if axesAreInnerMostDims axes rank then None
  else Some (filter (fun i => negb (existsb (Nat.eqb i) axes)) (seq 0 rank)
             ++ axes).

(** Modelled from the spec: [axis_util.getUndoAxesPermutation] is not in
    [segment_ops.ts]; it is the inverse of the permutation it is given:
    dimension [j] of the result is the place of [j] in the permutation. *)
Definition getUndoAxesPermutation (axes : list nat) : list nat :=
  map (fun j => indexOf j axes) (seq 0 (length axes)).

(** Modelled from the spec: [axis_util.getInnerMostAxes] is not in
    [segment_ops.ts] and the spec does not describe it beyond its name: the
    last [numAxes] axes of a tensor of the given rank. *)
Definition getInnerMostAxes (numAxes rank : nat) : list nat :=
  seq (rank - numAxes) numAxes.

End axis_util.

Module ArrayOps.

Definition zerosLike (t : Tensor) : Tensor :=
  {| dtype := dtype t; shape := shape t; values := fun _ => 0%Z |}.

Definition onesLike (t : Tensor) : Tensor :=
  {| dtype := dtype t; shape := shape t; values := fun _ => 1%Z |}.

Definition scalar (v : Z) (dt : DataType) : Tensor :=
  {| dtype := dt; shape := []; values := fun _ => v |}.

(** Modelled from the spec: [gather(x, indices, axis)] takes, for each
    position [i] along [axis], the slice of [x] at [indices[i]].  No bound
    is checked; an index is read as it is. *)
Definition gather (x indices : Tensor) (axis : nat) : Tensor :=
  {| dtype := dtype x;
     shape := replaceAt axis (shape x) (size indices);
     values := fun idx =>
       values x
         (replaceAt axis idx (Z.to_nat (values indices [nth axis idx 0]))) |}.

(** [ArrayOps.expandDims] is not in [segment_ops.ts].  As in the library:
    the new shape is the old one with a 1 spliced in at [axis]
    ([newShape.splice(axis, 0, 1)]); a negative position counts from the
    end, so that [expandDims(x, -1)] puts the singleton before the last
    dimension: [[N]] becomes [[1; N]].  The data are kept as they are. *)
Definition expandDims (t : Tensor) (axis : Z) : Tensor :=
  let p := if (axis <? 0)%Z
           then Z.to_nat (Z.max (Z.of_nat (rank t) + axis) 0)
           else Nat.min (Z.to_nat axis) (rank t) in
  {| dtype := dtype t;
     shape := firstn p (shape t) ++ 1 :: skipn p (shape t);
     values := fun idx => values t (firstn p idx ++ skipn (S p) idx) |}.

(** Modelled from the spec: [transpose(array, permutation)]; dimension [i]
    of the result is dimension [perm[i]] of the operand. *)
Definition transpose (t : Tensor) (perm : list nat) : Tensor :=
  {| dtype := dtype t;
     shape := permuteList 0 perm (shape t);
     values := fun idx =>
       values t (permuteList 0 (axis_util.getUndoAxesPermutation perm) idx) |}.

End ArrayOps.

Module BinaryOps.

Definition maximum (a b : Tensor) : Result Tensor :=
  broadcastOp Z.max (dtype a) a b.

End BinaryOps.

Module CompareOps.

Definition greaterEqual (a b : Tensor) : Result Tensor :=
  broadcastOp (fun u v => if (v <=? u)%Z then 1%Z else 0%Z) DBool a b.

Definition equal (a b : Tensor) : Result Tensor :=
  broadcastOp (fun u v => if (u =? v)%Z then 1%Z else 0%Z) DBool a b.

End CompareOps.

Module LogicalOps.

Definition truthy (v : Z) : bool := negb (v =? 0)%Z.

Definition logicalAnd (a b : Tensor) : Result Tensor :=
  broadcastOp (fun u v => if truthy u && truthy v then 1%Z else 0%Z) DBool a b.

(** Modelled from the spec: [selectWhere(mask, a, b)] picks [a] where the
    mask is set and [b] elsewhere; the three shapes must agree. *)
Definition where_ (condition a b : Tensor) : Result Tensor :=
  if list_eq_dec Nat.eq_dec (shape a) (shape b) then
    if list_eq_dec Nat.eq_dec (shape condition) (shape a) then
      Ok {| dtype := dtype a; shape := shape a;
            values := fun idx =>
              if truthy (values condition idx) then values a idx
              else values b idx |}
    else Throw (ShapeMismatchError (shape condition) (shape a))
  else Throw (ShapeMismatchError (shape a) (shape b)).

End LogicalOps.

(* ------------------------------------------------------------------ *)
(** ** [gatherDropNegatives] (segment_ops.ts, lines 79-96) *)

Local Open Scope result_scope.

(** [maximum(indices, zerosLike(indices))], the indices handed to
    [gather]. *)
Definition zeroClippedIndices (indices : Tensor) : Result Tensor :=
  BinaryOps.maximum indices (ArrayOps.zerosLike indices).

(** The loop of lines 89-91.  Its bound [gathered.rank - isPositive.rank] is
    read again at every turn, with the [isPositive] of that turn. *)
Fixpoint expandLoop (fuel gatheredRank i : nat) (isPositive : Tensor)
  : Tensor :=
  match fuel with
  | 0 => isPositive
  | S fuel' =>
      if i <? gatheredRank - rank isPositive
      then expandLoop fuel' gatheredRank (S i)
             (ArrayOps.expandDims isPositive (-1))
      else isPositive
  end.

(** [isPositive] as it stands after the loop. *)
Definition expandedIsPositive (gathered indices : Tensor) : Result Tensor :=
  isPositive <- CompareOps.greaterEqual indices (ArrayOps.scalar 0 DInt32) ;;
  Ok (expandLoop (rank gathered) (rank gathered) 0 isPositive).

(** The all-true mask [onesLike(gathered).equal(scalar(1))]. *)
Definition bools (gathered : Tensor) : Result Tensor :=
  CompareOps.equal (ArrayOps.onesLike gathered) (ArrayOps.scalar 1 DFloat32).

(** [isPositive] after line 93, the mask handed to [where]. *)
Definition dropMask (gathered indices : Tensor) : Result Tensor :=
  isPositive <- expandedIsPositive gathered indices ;;
  bools <- bools gathered ;;
  LogicalOps.logicalAnd isPositive bools.

Definition gatherDropNegatives (x indices : Tensor) (axis : nat)
  : Result Tensor :=
  zeroClippedIndices <- zeroClippedIndices indices ;;
  let gathered := ArrayOps.gather x zeroClippedIndices axis in
  isPositive <- dropMask gathered indices ;;
  let zeroSlice := ArrayOps.zerosLike gathered in
  LogicalOps.where_ isPositive gathered zeroSlice.

(* ------------------------------------------------------------------ *)
(** ** The engine and its backend *)

Module KernelBackend.

Record t := {
  unsortedSegmentSum : Tensor -> Tensor -> Q -> Tensor
}.

End KernelBackend.

(** The input slices that [segmentIds] maps to slot [s]. *)
Definition slicesOf (x segmentIds : Tensor) (s : nat) : list nat :=
  filter (fun i => (values segmentIds [i] =? Z.of_nat s)%Z)
         (seq 0 (nth 0 (shape x) 0)).

Definition sumZ (l : list Z) : Z := fold_right Z.add 0%Z l.

(** Modelled from the spec: the kernel executor is not in [segment_ops.ts].
    It is handed the array with the segment axis innermost (lines 58-61) and
    reduces along that axis: slot [s] of the innermost axis of the result is
    the elementwise sum of every slice [i] of the innermost axis of the
    input with [segmentIds[i] == s]; the other dimensions are kept.  What
    the kernel does on inputs it cannot reduce (a [numSegments] that is not
    positive, a [segmentIds] of another length) is not modelled: it is
    total here. *)
Definition ENV_backend : KernelBackend.t :=
  {| KernelBackend.unsortedSegmentSum := fun x segmentIds numSegments =>
       let axis := rank x - 1 in
       {| dtype := dtype x;
          shape := replaceAt axis (shape x) (Z.to_nat (Qfloor numSegments));
          values := fun idx =>
            sumZ (map (fun i => values x (replaceAt axis idx i))
                      (filter (fun i =>
                                 (values segmentIds [i]
                                  =? Z.of_nat (nth axis idx 0%nat))%Z)
                              (seq 0 (nth axis (shape x) 0)))) |} |}.

(** The environment of the closure [gradFunc] of lines 62-67: the variables
    [segmentIds] and [axis] it refers to, [axis] with the value it has when
    the closure runs, that is after line 60. *)
Record GradFunc := {
  gradSegmentIds : Tensor;
  gradAxis : nat
}.

Definition derX (g : GradFunc) (dy : Tensor) : unit -> Result Tensor :=
  fun _ => gatherDropNegatives dy (gradSegmentIds g) (gradAxis g).

Definition gradFunc (g : GradFunc) (dy : Tensor)
  : list (string * (unit -> Result Tensor)) :=
  [("permutedX", derX g dy)].

Record TapeNode := {
  nodeInputs : list (string * Tensor);
  nodeOutput : Tensor;
  nodeGradient : GradFunc
}.

Record Engine := {
  kernelsRun : nat;
  activeTape : list TapeNode
}.

Definition M (A : Type) : Type := Engine -> Result A * Engine.

Definition mret {A} (a : A) : M A := fun e => (Ok a, e).

Definition mbind {A B} (m : M A) (k : A -> M B) : M B :=
  fun e =>
    match m e with
    | (Ok a, e') => k a e'
    | (Throw err, e') => (Throw err, e')
    end.

Definition lift {A} (r : Result A) : M A := fun e => (r, e).

Declare Scope engine_scope.
Delimit Scope engine_scope with engine.
Notation "x <- c ;; k" := (mbind c (fun x => k))
  (at level 61, c at next level, right associativity) : engine_scope.

(** Modelled from the spec: [ENV.engine.runKernel(deviceFn, inputsMap,
    gradientFn)] dispatches [deviceFn] against the current backend and
    records [gradientFn] against the named inputs. *)
Definition runKernel (forwardFunc : KernelBackend.t -> Tensor)
    (inputs : list (string * Tensor)) (backwardsFunc : GradFunc) : M Tensor :=
  fun e =>
    let result := forwardFunc ENV_backend in
    (Ok result,
     {| kernelsRun := S (kernelsRun e);
        activeTape := activeTape e ++
          [{| nodeInputs := inputs; nodeOutput := result;
              nodeGradient := backwardsFunc |}] |}).

(** What a caller may pass where a tensor is expected. *)
Inductive Argument :=
| ATensor (t : Tensor)
| ANotTensor.

Module util.

(** Modelled from the spec: the validation utility is not in
    [segment_ops.ts]; it raises a descriptive error when an argument is not
    a tensor and when an asserted condition is false. *)
Definition assertArgumentIsTensor (x : Argument) (argName functionName : string)
  : Result Tensor :=
  match x with
  | ATensor t => Ok t
  | ANotTensor => Throw (NotATensorError argName functionName)
  end.

(** [assertArgumentsAreTensors({x, segmentIds}, functionName)] visits the
    arguments in the order they are written. *)
Definition assertArgumentsAreTensors (x segmentIds : string * Argument)
    (functionName : string) : Result (Tensor * Tensor) :=
  rbind (assertArgumentIsTensor (snd x) (fst x) functionName) (fun tx =>
  rbind (assertArgumentIsTensor (snd segmentIds) (fst segmentIds) functionName)
        (fun ts => Ok (tx, ts))).

Definition assert (expr : bool) (msg : string) : Result unit :=
  if expr then Ok tt else Throw (AssertError msg).

(** [isInt(a)] is [a % 1 === 0]. *)
Definition isInt (a : Q) : bool := Qeq_bool (inject_Z (Qfloor a)) a.

End util.

(* ------------------------------------------------------------------ *)
(** ** [SegmentOps.unsortedSegmentSum] (segment_ops.ts, lines 48-76) *)

Module SegmentOps.

Local Open Scope engine_scope.

Definition unsortedSegmentSum (x segmentIds : Argument) (numSegments : Q)
  : M Tensor :=
  args <- lift (util.assertArgumentsAreTensors
                  ("x", x) ("segmentIds", segmentIds) "unsortedSegmentSum") ;;
  let x := fst args in
  let segmentIds := snd args in
  _ <- lift (util.assert (dtype_eqb (dtype segmentIds) DInt32)
               "segmentIds must be of dtype `int32`") ;;
  _ <- lift (util.assert (util.isInt numSegments)
               "numSegments must be of dtype int") ;;
  let axis := 0 in
  let permutation := axis_util.getAxesPermutation [axis] (rank x) in
  let permutedX :=
    match permutation with
    | Some p => ArrayOps.transpose x p
    | None => x
    end in
  let axis :=
    match permutation with
    | Some _ => nth 0 (axis_util.getInnerMostAxes 1 (rank x)) 0
    | None => axis
    end in
  let gradFunc := {| gradSegmentIds := segmentIds; gradAxis := axis |} in
  result <- runKernel
              (fun backend =>
                 KernelBackend.unsortedSegmentSum backend
                   permutedX segmentIds numSegments)
              [("permutedX", permutedX)] gradFunc ;;
  mret match permutation with
       | Some p =>
           ArrayOps.transpose result (axis_util.getUndoAxesPermutation p)
       | None => result
       end.

End SegmentOps.

(* ------------------------------------------------------------------ *)
(** ** Reference notions from the specification *)

(** The permutation of the spec's AxisNormalizer: absent for axis 0,
    otherwise the axis first and the other dimensions after it in their
    order. *)
Definition frontPermutation (axis rank : nat) : option (list nat) :=
  if axis =? 0 then None
  else Some (axis :: filter (fun j => negb (j =? axis)) (seq 0 rank)).

(** The spec's AxisNormalizer for an arbitrary axis: the array with [axis]
    brought to the front, and the permutation used (absent for axis 0). *)
Definition normalize (array : Tensor) (axis : nat)
  : Tensor * option (list nat) :=
  let permutation := frontPermutation axis (rank array) in
  (match permutation with
   | Some p => ArrayOps.transpose array p
   | None => array
   end, permutation).

Definition denormalize (result : Tensor) (permutation : option (list nat))
  : Tensor :=
  match permutation with
  | Some p => ArrayOps.transpose result (axis_util.getUndoAxesPermutation p)
  | None => result
  end.

(** The spec's reduction along axis [k], in its own words: slot [s] along
    axis [k] is the sum of the slices [i] along axis [k] whose id is [s]. *)
Definition segmentSumAlong (k : nat) (x segmentIds : Tensor) (n : nat)
  : Tensor :=
  {| dtype := dtype x;
     shape := replaceAt k (shape x) n;
     values := fun idx =>
       sumZ (map (fun i => values x (replaceAt k idx i))
                 (filter (fun i => (values segmentIds [i] =? Z.of_nat (nth k idx 0%nat))%Z)
                         (seq 0 (nth k (shape x) 0)))) |}.

(** Whether every index handed to [gather] addresses a slice of [x] along
    [axis]. *)
Definition gatherInBounds (x indices : Tensor) (axis : nat) : bool :=
  forallb (fun i => (0 <=? values indices [i])%Z &&
                    (values indices [i] <? Z.of_nat (nth axis (shape x) 0%nat))%Z)
          (seq 0 (size indices)).

Definition emptyEngine : Engine := {| kernelsRun := 0; activeTape := [] |}.

(* ------------------------------------------------------------------ *)
(** ** Concrete tensors used by the scenarios *)

(** A gradient of shape [[2; 1; 1]] with [dy[0,0,0] = 5], [dy[1,0,0] = 7]. *)
Definition dyRank3 : Tensor :=
  {| dtype := DFloat32; shape := [2; 1; 1];
     values := fun idx =>
       match idx with
       | [0; _; _] => 5%Z
       | [1; _; _] => 7%Z
       | _ => 0%Z
       end |}.

(** A [2 x 3] matrix with [x[i,j] = 10 i + j]. *)
Definition matrix23 : Tensor :=
  {| dtype := DFloat32; shape := [2; 3];
     values := fun idx =>
       match idx with
       | [i; j] => Z.of_nat (10 * i + j)
       | _ => 0%Z
       end |}.

(** An empty gradient, as produced for [numSegments = 0]. *)
Definition dyEmpty : Tensor :=
  {| dtype := DFloat32; shape := [0]; values := fun _ => 0%Z |}.


(** Two tensors with the same dtype and shape and the same value at every
    multi-index of the shape's length. *)
Definition tensorEq (a b : Tensor) : Prop :=
  dtype a = dtype b /\ shape a = shape b /\
  forall idx, List.length idx = rank a -> values a idx = values b idx.


(* ------------------------------------------------------------------ *)
(** ** Validation and dispatch *)

Lemma isInt_inject_Z (z : Z) : util.isInt (inject_Z z) = true.
Proof.
  unfold util.isInt. rewrite Qfloor_Z. apply Qeq_bool_iff. reflexivity.
Qed.

Lemma dtype_eqb_eq (a b : DataType) : dtype_eqb a b = true <-> a = b.
Proof. destruct a, b; simpl; split; congruence. Qed.


Lemma filter_all {A} (f : A -> bool) (l : list A) :
  (forall a, In a l -> f a = true) -> filter f l = l.
Proof.
  induction l as [| a l IH]; simpl; intros H; [reflexivity |].
  rewrite (H a) by now left. f_equal. apply IH. intros b Hb. apply H.
  now right.
Qed.

(** For the single axis 0 the permutation is absent exactly at rank 1. *)
Lemma getAxesPermutation_rank1 : axis_util.getAxesPermutation [0] 1 = None.
Proof. reflexivity. Qed.

Lemma getAxesPermutation_rotation (r : nat) :
  r <> 1 ->
  axis_util.getAxesPermutation [0] r = Some (seq 1 (r - 1) ++ [0]).
Proof.
  intros Hr. unfold axis_util.getAxesPermutation, axis_util.axesAreInnerMostDims.
  cbn [length seq forallb nth Nat.sub].
  destruct (Z.of_nat 0 =? Z.of_nat r - 1 - Z.of_nat 0)%Z eqn:E.
  { apply Z.eqb_eq in E. lia. }
  cbn [andb]. do 2 f_equal.
  destruct r as [| r]; [reflexivity |].
  cbn [seq filter existsb Nat.eqb orb negb].
  replace (S r - 1) with r by lia.
  apply filter_all. intros a Ha. apply in_seq in Ha.
  cbn [existsb]. destruct a as [| a]; [lia | reflexivity].
Qed.

(** What a valid call does, whatever the axis helpers return. *)
Lemma unsortedSegmentSum_valid (x ids : Tensor) (n : Q) (e : Engine) :
  dtype ids = DInt32 -> util.isInt n = true ->
  let permutation := axis_util.getAxesPermutation [0] (rank x) in
  let permutedX := match permutation with
                   | Some p => ArrayOps.transpose x p
                   | None => x
                   end in
  let axis := match permutation with
              | Some _ => nth 0 (axis_util.getInnerMostAxes 1 (rank x)) 0
              | None => 0
              end in
  let result := KernelBackend.unsortedSegmentSum ENV_backend permutedX ids n in
  SegmentOps.unsortedSegmentSum (ATensor x) (ATensor ids) n e =
  (Ok match permutation with
      | Some p => ArrayOps.transpose result (axis_util.getUndoAxesPermutation p)
      | None => result
      end,
   {| kernelsRun := S (kernelsRun e);
      activeTape := activeTape e ++
        [{| nodeInputs := [("permutedX", permutedX)];
            nodeOutput := result;
            nodeGradient := {| gradSegmentIds := ids; gradAxis := axis |} |}] |}).
Proof.
  intros Hd Hn. unfold SegmentOps.unsortedSegmentSum, mbind, lift, mret, runKernel.
  simpl. rewrite Hd, Hn. simpl. reflexivity.
Qed.

(** C6: a missing tensor argument, a [segmentIds] whose dtype is not int32
    and a non-integer [numSegments] each make the call fail with an error of
    its own, and the engine is left as it was: nothing has been dispatched
    and nothing recorded. *)
Theorem unsortedSegmentSum_validation_errors
    (x segmentIds : Argument) (numSegments : Q) (e : Engine) :
  let run := SegmentOps.unsortedSegmentSum x segmentIds numSegments e in
  (x = ANotTensor ->
   run = (Throw (NotATensorError "x" "unsortedSegmentSum"), e)) /\
  (forall tx, x = ATensor tx -> segmentIds = ANotTensor ->
   run = (Throw (NotATensorError "segmentIds" "unsortedSegmentSum"), e)) /\
  (forall tx ts, x = ATensor tx -> segmentIds = ATensor ts ->
   dtype ts <> DInt32 ->
   run = (Throw (AssertError "segmentIds must be of dtype `int32`"), e)) /\
  (forall tx ts, x = ATensor tx -> segmentIds = ATensor ts ->
   dtype ts = DInt32 -> util.isInt numSegments = false ->
   run = (Throw (AssertError "numSegments must be of dtype int"), e)) /\
  (x = ANotTensor \/ segmentIds = ANotTensor \/
   (exists ts, segmentIds = ATensor ts /\ dtype ts <> DInt32) \/
   util.isInt numSegments = false ->
   exists err, run = (Throw err, e)) /\
  (forall err e', run = (Throw err, e') ->
   kernelsRun e' = kernelsRun e /\ activeTape e' = activeTape e) /\
  (forall a f, NotATensorError a f <>
               AssertError "segmentIds must be of dtype `int32`") /\
  (forall a f, NotATensorError a f <>
               AssertError "numSegments must be of dtype int") /\
  AssertError "segmentIds must be of dtype `int32`" <>
  AssertError "numSegments must be of dtype int".
Proof.
  cbv zeta.
  assert (Hall : forall err e',
             SegmentOps.unsortedSegmentSum x segmentIds numSegments e
             = (Throw err, e') -> e' = e).
  { unfold SegmentOps.unsortedSegmentSum, mbind, lift, mret, runKernel.
    destruct x as [tx |]; simpl; [| intros; congruence].
    destruct segmentIds as [ts |]; simpl; [| intros; congruence].
    destruct (dtype_eqb (dtype ts) DInt32); simpl; [| intros; congruence].
    destruct (util.isInt numSegments); simpl; intros; congruence. }
  assert (Hd : forall ts, dtype ts <> DInt32 -> dtype_eqb (dtype ts) DInt32 = false).
  { intros ts H. destruct (dtype_eqb (dtype ts) DInt32) eqn:E; [| reflexivity].
    apply dtype_eqb_eq in E. contradiction. }
  repeat split.
  - intros ->. reflexivity.
  - intros tx -> ->. reflexivity.
  - intros tx ts -> -> H.
    unfold SegmentOps.unsortedSegmentSum, mbind, lift. simpl.
    rewrite (Hd ts H). reflexivity.
  - intros tx ts -> -> H Hn.
    unfold SegmentOps.unsortedSegmentSum, mbind, lift. simpl.
    rewrite H, Hn. reflexivity.
  - unfold SegmentOps.unsortedSegmentSum, mbind, lift, mret, runKernel.
    intros H.
    destruct x as [tx |]; simpl; [| eauto].
    destruct segmentIds as [ts |]; simpl; [| eauto].
    destruct (dtype_eqb (dtype ts) DInt32) eqn:E; simpl; [| eauto].
    destruct (util.isInt numSegments) eqn:En; simpl; [| eauto].
    apply dtype_eqb_eq in E.
    destruct H as [H | [H | [[ts' [H H']] | H]]]; try discriminate.
    injection H as <-. contradiction.
  - rewrite (Hall _ _ H). reflexivity.
  - rewrite (Hall _ _ H). reflexivity.
  - discriminate.
  - discriminate.
  - discriminate.
Qed.

Lemma unsortedSegmentSum_validation_errors_witness :
  SegmentOps.unsortedSegmentSum (ATensor (tensor1d DFloat32 [10; 20]%Z))
    (ATensor (tensor1d DInt32 [-1; 0]%Z)) (3 # 2) emptyEngine =
  (Throw (AssertError "numSegments must be of dtype int"), emptyEngine).
Proof.
  exact (proj1 (proj2 (proj2 (proj2
    (unsortedSegmentSum_validation_errors
       (ATensor (tensor1d DFloat32 [10; 20]%Z))
       (ATensor (tensor1d DInt32 [-1; 0]%Z)) (3 # 2) emptyEngine))))
    _ _ eq_refl eq_refl eq_refl eq_refl).
Defined.

(* ------------------------------------------------------------------ *)
(** ** Permutations of axes *)

Section Permutations.

Variable r : nat.
Variable p : list nat.
Hypothesis p_perm : Permutation p (seq 0 r).

Lemma perm_length : length p = r.
Proof. rewrite (Permutation_length p_perm). apply length_seq. Qed.

Lemma perm_In (j : nat) : In j p <-> j < r.
Proof.
  split; intros H.
  - apply (Permutation_in _ p_perm) in H. apply in_seq in H. lia.
  - apply (Permutation_in _ (Permutation_sym p_perm)). apply in_seq. lia.
Qed.

Lemma perm_NoDup : NoDup p.
Proof.
  apply (Permutation_NoDup (Permutation_sym p_perm)). apply seq_NoDup.
Qed.

End Permutations.

Lemma indexOf_lt (j : nat) (p : list nat) : In j p -> indexOf j p < length p.
Proof.
  induction p as [| a p IH]; simpl; [tauto |].
  intros [-> | H].
  - rewrite Nat.eqb_refl. lia.
  - destruct (a =? j); [lia |]. specialize (IH H). lia.
Qed.

Lemma nth_indexOf (j d : nat) (p : list nat) :
  In j p -> nth (indexOf j p) p d = j.
Proof.
  induction p as [| a p IH]; simpl; [tauto |].
  intros H. destruct (a =? j) eqn:E.
  - apply Nat.eqb_eq in E. exact E.
  - apply Nat.eqb_neq in E. destruct H as [H | H]; [contradiction | auto].
Qed.

Lemma indexOf_nth (i d : nat) (p : list nat) :
  NoDup p -> i < length p -> indexOf (nth i p d) p = i.
Proof.
  revert i. induction p as [| a p IH]; simpl; intros i Hnd Hi; [lia |].
  inversion Hnd as [| ? ? Hnotin Hnd']; subst.
  destruct i as [| i].
  - now rewrite Nat.eqb_refl.
  - destruct (a =? nth i p d) eqn:E.
    + apply Nat.eqb_eq in E. exfalso. apply Hnotin. rewrite E.
      apply nth_In. lia.
    + f_equal. apply IH; [assumption | lia].
Qed.

Lemma length_permuteList {A} (d : A) (p : list nat) (l : list A) :
  length (permuteList d p l) = length p.
Proof. unfold permuteList. apply length_map. Qed.

Lemma nth_permuteList {A} (d : A) (p : list nat) (l : list A) (i : nat) :
  i < length p -> nth i (permuteList d p l) d = nth (nth i p 0) l d.
Proof.
  intros Hi. unfold permuteList.
  rewrite (nth_indep _ d (nth 0 l d)) by (rewrite length_map; exact Hi).
  rewrite (map_nth (fun a => nth a l d) p 0 i). reflexivity.
Qed.

Lemma length_undo (p : list nat) :
  length (axis_util.getUndoAxesPermutation p) = length p.
Proof.
  unfold axis_util.getUndoAxesPermutation.
  now rewrite length_map, length_seq.
Qed.

Lemma nth_undo (p : list nat) (j : nat) :
  j < length p -> nth j (axis_util.getUndoAxesPermutation p) 0 = indexOf j p.
Proof.
  intros Hj. unfold axis_util.getUndoAxesPermutation.
  rewrite (nth_indep _ 0 (indexOf 0 p)) by (now rewrite length_map, length_seq).
  rewrite (map_nth (fun j => indexOf j p) (seq 0 (length p)) 0 j).
  rewrite seq_nth by exact Hj. reflexivity.
Qed.

(** Undoing after permuting gives the list back. *)
Lemma undo_permute {A} (d : A) (r : nat) (p : list nat) (l : list A) :
  Permutation p (seq 0 r) -> length l = r ->
  permuteList d (axis_util.getUndoAxesPermutation p) (permuteList d p l) = l.
Proof.
  intros Hp Hl. pose proof (perm_length r p Hp) as Hlen.
  apply (nth_ext _ _ d d).
  - rewrite length_permuteList, length_undo. lia.
  - intros j Hj. rewrite length_permuteList, length_undo in Hj.
    rewrite nth_permuteList by (rewrite length_undo; exact Hj).
    rewrite nth_undo by exact Hj.
    assert (Hin : In j p) by (apply (perm_In r p Hp); lia).
    rewrite nth_permuteList by (apply indexOf_lt; exact Hin).
    rewrite nth_indexOf by exact Hin. reflexivity.
Qed.

(** Permuting after undoing gives the list back. *)
Lemma permute_undo {A} (d : A) (r : nat) (p : list nat) (l : list A) :
  Permutation p (seq 0 r) -> length l = r ->
  permuteList d p (permuteList d (axis_util.getUndoAxesPermutation p) l) = l.
Proof.
  intros Hp Hl. pose proof (perm_length r p Hp) as Hlen.
  apply (nth_ext _ _ d d).
  - rewrite length_permuteList. lia.
  - intros i Hi. rewrite length_permuteList in Hi.
    rewrite nth_permuteList by exact Hi.
    assert (Ha : nth i p 0 < length p).
    { rewrite Hlen. apply (perm_In r p Hp). apply nth_In. exact Hi. }
    rewrite nth_permuteList by (rewrite length_undo; exact Ha).
    rewrite nth_undo by exact Ha.
    rewrite indexOf_nth; [reflexivity | apply (perm_NoDup r p Hp) | exact Hi].
Qed.

(** The undo permutation is a permutation of the same axes. *)
Lemma undo_Permutation (r : nat) (p : list nat) :
  Permutation p (seq 0 r) ->
  Permutation (axis_util.getUndoAxesPermutation p) (seq 0 r).
Proof.
  intros Hp. pose proof (perm_length r p Hp) as Hlen.
  apply NoDup_Permutation_bis.
  - unfold axis_util.getUndoAxesPermutation. rewrite Hlen.
    apply Finite.Injective_map_NoDup_in; [| apply seq_NoDup].
    intros a b Ha Hb Hab. apply in_seq in Ha, Hb.
    assert (Hina : In a p) by (apply (perm_In r p Hp); lia).
    assert (Hinb : In b p) by (apply (perm_In r p Hp); lia).
    rewrite <- (nth_indexOf a 0 p Hina), <- (nth_indexOf b 0 p Hinb).
    now rewrite Hab.
  - rewrite length_undo, length_seq. lia.
  - intros a Ha. unfold axis_util.getUndoAxesPermutation in Ha.
    apply in_map_iff in Ha. destruct Ha as [j [<- Hj]].
    apply in_seq in Hj. apply in_seq. split; [lia |]. simpl.
    rewrite <- Hlen. apply indexOf_lt. apply (perm_In r p Hp). lia.
Qed.

(** Undoing twice is the permutation itself. *)
Lemma undo_undo (r : nat) (p : list nat) :
  Permutation p (seq 0 r) ->
  axis_util.getUndoAxesPermutation (axis_util.getUndoAxesPermutation p) = p.
Proof.
  intros Hp. pose proof (perm_length r p Hp) as Hlen.
  pose proof (undo_Permutation r p Hp) as Hq.
  apply (nth_ext _ _ 0 0).
  - now rewrite !length_undo.
  - intros i Hi. rewrite !length_undo in Hi.
    rewrite nth_undo by (rewrite length_undo; exact Hi).
    assert (Ha : nth i p 0 < length p).
    { rewrite Hlen. apply (perm_In r p Hp). apply nth_In. exact Hi. }
    rewrite <- (indexOf_nth i 0 p (perm_NoDup r p Hp) Hi) at 1.
    rewrite <- (nth_undo p (nth i p 0) Ha).
    apply indexOf_nth; [apply (perm_NoDup r _ Hq) | now rewrite length_undo].
Qed.

(** Transposing by a permutation and then by its undo permutation gives the
    tensor back. *)
Lemma transpose_undo (t : Tensor) (p : list nat) :
  Permutation p (seq 0 (rank t)) ->
  tensorEq (ArrayOps.transpose (ArrayOps.transpose t p)
              (axis_util.getUndoAxesPermutation p)) t.
Proof.
  intros Hp. unfold tensorEq, rank. simpl. split; [reflexivity |].
  assert (Hs : permuteList 0 (axis_util.getUndoAxesPermutation p)
                 (permuteList 0 p (shape t)) = shape t)
    by (apply (undo_permute 0 (rank t)); [exact Hp | reflexivity]).
  split; [exact Hs |].
  intros idx Hidx. rewrite Hs in Hidx.
  f_equal. apply (permute_undo 0 (rank t)).
  - apply undo_Permutation. exact Hp.
  - exact Hidx.
Qed.

(* ------------------------------------------------------------------ *)
(** ** Moving an axis: list facts *)

Lemma length_replaceAt {A} (k : nat) (l : list A) (v : A) :
  length (replaceAt k l v) = length l.
Proof.
  revert k. induction l as [| a l IH]; intros [| k]; simpl; auto.
Qed.

Lemma nth_replaceAt_same {A} (k : nat) (l : list A) (v d : A) :
  k < length l -> nth k (replaceAt k l v) d = v.
Proof.
  revert k. induction l as [| a l IH]; intros [| k]; simpl; intros H;
    try lia; auto. apply IH. lia.
Qed.

Lemma nth_replaceAt_other {A} (k a : nat) (l : list A) (v d : A) :
  a <> k -> nth a (replaceAt k l v) d = nth a l d.
Proof.
  revert k a. induction l as [| b l IH]; intros [| k] [| a]; simpl; intros H;
    try congruence; auto.
Qed.

Lemma permuteList_replaceAt {A} (d : A) (k : nat) (others : list nat)
    (l : list A) (v : A) :
  ~ In k others -> k < length l ->
  permuteList d (k :: others) (replaceAt k l v) = v :: permuteList d others l.
Proof.
  intros Hk Hl. unfold permuteList. simpl.
  rewrite nth_replaceAt_same by exact Hl. f_equal.
  apply map_ext_in. intros a Ha. apply nth_replaceAt_other.
  intros ->. contradiction.
Qed.

Lemma filter_none {A} (f : A -> bool) (l : list A) :
  (forall a, In a l -> f a = false) -> filter f l = [].
Proof.
  induction l as [| a l IH]; simpl; intros H; [reflexivity |].
  rewrite (H a) by now left. apply IH. intros b Hb. apply H. now right.
Qed.

Lemma sumZ_filter {A} (f : A -> bool) (g : A -> Z) (l : list A) :
  sumZ (map g (filter f l)) = sumZ (map (fun a => if f a then g a else 0%Z) l).
Proof.
  induction l as [| a l IH]; simpl; [reflexivity |].
  destruct (f a); simpl; rewrite IH; reflexivity.
Qed.

Lemma slicesOf_spec (x ids : Tensor) (s i : nat) :
  In i (slicesOf x ids s) <->
  i < nth 0 (shape x) 0 /\ values ids [i] = Z.of_nat s.
Proof.
  unfold slicesOf. rewrite filter_In, in_seq, Z.eqb_eq. intuition lia.
Qed.

Lemma map_nth_seq {A} (d : A) (l : list A) :
  map (fun j => nth j l d) (seq 0 (length l)) = l.
Proof.
  apply (nth_ext _ _ d d).
  - now rewrite length_map, length_seq.
  - intros j Hj. rewrite length_map, length_seq in Hj.
    rewrite (nth_indep _ d (nth 0 l d)) by (now rewrite length_map, length_seq).
    rewrite (map_nth (fun j => nth j l d) (seq 0 (length l)) 0 j).
    now rewrite seq_nth by exact Hj.
Qed.

(** The permutation [[1; ...; r-1; 0]] moves the head of a list to its
    end. *)
Lemma permuteList_rotation {A} (d a : A) (l : list A) :
  permuteList d (seq 1 (length l) ++ [0]) (a :: l) = l ++ [a].
Proof.
  unfold permuteList. rewrite map_app. cbn [map nth]. f_equal.
  rewrite <- seq_shift, map_map. cbn [nth]. apply map_nth_seq.
Qed.

Lemma rotation_Permutation (r : nat) :
  1 <= r -> Permutation (seq 1 (r - 1) ++ [0]) (seq 0 r).
Proof.
  intros Hr. destruct r as [| r]; [lia |].
  replace (S r - 1) with r by lia. cbn [seq].
  apply Permutation_sym, Permutation_cons_append.
Qed.

Lemma replaceAt_last {A} (l : list A) (a v : A) :
  replaceAt (length l) (l ++ [a]) v = l ++ [v].
Proof. induction l as [| b l IH]; simpl; [reflexivity | now rewrite IH]. Qed.

Lemma nth_last {A} (l : list A) (a d : A) : nth (length l) (l ++ [a]) d = a.
Proof. induction l as [| b l IH]; simpl; [reflexivity | exact IH]. Qed.

(* ------------------------------------------------------------------ *)
(** ** The run of a valid call *)

(** At rank 1 no permutation is computed: the kernel runs on [x] itself and
    the closure holds axis 0. *)
Lemma unsortedSegmentSum_rank1 (x ids : Tensor) (n : Q) (e : Engine) :
  dtype ids = DInt32 -> util.isInt n = true -> rank x = 1 ->
  SegmentOps.unsortedSegmentSum (ATensor x) (ATensor ids) n e =
  (Ok (KernelBackend.unsortedSegmentSum ENV_backend x ids n),
   {| kernelsRun := S (kernelsRun e);
      activeTape := activeTape e ++
        [{| nodeInputs := [("permutedX", x)];
            nodeOutput := KernelBackend.unsortedSegmentSum ENV_backend x ids n;
            nodeGradient := {| gradSegmentIds := ids; gradAxis := 0 |} |}] |}).
Proof.
  intros Hd Hn Hr.
  rewrite (unsortedSegmentSum_valid x ids n e Hd Hn).
  rewrite Hr, getAxesPermutation_rank1. reflexivity.
Qed.

(** At every other rank [x] is transposed by [[1; ...; rank-1; 0]], which
    brings axis 0 innermost, the kernel runs on the transposed array, the
    closure holds the innermost axis, and the result is transposed back. *)
Lemma unsortedSegmentSum_permuted (x ids : Tensor) (n : Q) (e : Engine) :
  dtype ids = DInt32 -> util.isInt n = true -> rank x <> 1 ->
  let p := seq 1 (rank x - 1) ++ [0] in
  let permutedX := ArrayOps.transpose x p in
  let result :=
    KernelBackend.unsortedSegmentSum ENV_backend permutedX ids n in
  SegmentOps.unsortedSegmentSum (ATensor x) (ATensor ids) n e =
  (Ok (ArrayOps.transpose result (axis_util.getUndoAxesPermutation p)),
   {| kernelsRun := S (kernelsRun e);
      activeTape := activeTape e ++
        [{| nodeInputs := [("permutedX", permutedX)];
            nodeOutput := result;
            nodeGradient :=
              {| gradSegmentIds := ids; gradAxis := rank x - 1 |} |}] |}).
Proof.
  intros Hd Hn Hr. cbv zeta.
  rewrite (unsortedSegmentSum_valid x ids n e Hd Hn).
  rewrite (getAxesPermutation_rotation (rank x) Hr). reflexivity.
Qed.

Lemma kernel_inner_shape (x ids : Tensor) (n N : nat) (ps : list nat) :
  shape x = ps ++ [N] ->
  shape (KernelBackend.unsortedSegmentSum ENV_backend x ids
           (inject_Z (Z.of_nat n))) = ps ++ [n].
Proof.
  intros Hs. cbn [shape ENV_backend KernelBackend.unsortedSegmentSum].
  rewrite Qfloor_Z, Nat2Z.id. unfold rank. rewrite Hs, length_app.
  cbn [length]. replace (length ps + 1 - 1) with (length ps) by lia.
  apply replaceAt_last.
Qed.

Lemma kernel_inner_values (x ids : Tensor) (q : Q) (N s : nat)
    (ps pre : list nat) :
  shape x = ps ++ [N] -> length pre = length ps ->
  values (KernelBackend.unsortedSegmentSum ENV_backend x ids q) (pre ++ [s]) =
  sumZ (map (fun i => values x (pre ++ [i]))
            (filter (fun i => (values ids [i] =? Z.of_nat s)%Z) (seq 0 N))).
Proof.
  intros Hs Hpre. cbn [values ENV_backend KernelBackend.unsortedSegmentSum].
  unfold rank. rewrite Hs, length_app. cbn [length].
  replace (length ps + 1 - 1) with (length ps) by lia.
  rewrite nth_last, <- Hpre.
  rewrite (filter_ext _ (fun i => (values ids [i] =? Z.of_nat s)%Z))
    by (intros i; now rewrite nth_last).
  f_equal. apply map_ext. intros i. now rewrite replaceAt_last.
Qed.

(** The transposed pipeline on an array of shape [N :: tlx]: the result has
    shape [n :: tlx] and slot [s] sums the slices of [x] whose id is [s]. *)
Lemma permuted_pipeline (x ids : Tensor) (n N : nat) (tlx : list nat) :
  shape x = N :: tlx ->
  let p := seq 1 (length tlx) ++ [0] in
  let y := ArrayOps.transpose
             (KernelBackend.unsortedSegmentSum ENV_backend
                (ArrayOps.transpose x p) ids (inject_Z (Z.of_nat n)))
             (axis_util.getUndoAxesPermutation p) in
  shape y = n :: tlx /\
  forall s rest, length rest = length tlx ->
    values y (s :: rest) =
    sumZ (map (fun i => values x (i :: rest)) (slicesOf x ids s)).
Proof.
  intros Hs p y.
  assert (Hperm : Permutation p (seq 0 (S (length tlx)))).
  { unfold p. replace (length tlx) with (S (length tlx) - 1) at 1 by lia.
    apply rotation_Permutation. lia. }
  assert (Hpx : shape (ArrayOps.transpose x p) = tlx ++ [N]).
  { cbn [shape ArrayOps.transpose]. rewrite Hs. apply permuteList_rotation. }
  split.
  - unfold y. cbn [shape ArrayOps.transpose].
    rewrite (kernel_inner_shape _ ids n N tlx Hpx).
    rewrite <- (permuteList_rotation 0 n tlx). fold p.
    apply (undo_permute 0 (S (length tlx))); [exact Hperm | reflexivity].
  - intros s rest Hrest. unfold y. cbn [values ArrayOps.transpose].
    rewrite (undo_undo _ p Hperm).
    replace (permuteList 0 p (s :: rest)) with (rest ++ [s])
      by (unfold p; rewrite <- Hrest; symmetry; apply permuteList_rotation).
    rewrite (kernel_inner_values _ ids _ N s tlx rest Hpx Hrest).
    unfold slicesOf. rewrite Hs. cbn [nth].
    f_equal. apply map_ext. intros i. cbn [values ArrayOps.transpose].
    f_equal.
    replace (rest ++ [i]) with (permuteList 0 p (i :: rest))
      by (unfold p; rewrite <- Hrest; apply permuteList_rotation).
    apply (undo_permute 0 (S (length tlx))); [exact Hperm |].
    simpl. now rewrite Hrest.
Qed.

(** What a valid call returns, end to end. *)
Lemma unsortedSegmentSum_end_to_end (x ids : Tensor) (n : nat) (e : Engine) :
  dtype ids = DInt32 ->
  exists y e',
    SegmentOps.unsortedSegmentSum (ATensor x) (ATensor ids)
      (inject_Z (Z.of_nat n)) e = (Ok y, e') /\
    dtype y = dtype x /\ shape y = n :: tl (shape x) /\
    forall s rest, (2 <= rank x -> length rest = rank x - 1) ->
      values y (s :: rest) =
      sumZ (map (fun i => values x (i :: rest)) (slicesOf x ids s)).
Proof.
  intros Hd. pose proof (isInt_inject_Z (Z.of_nat n)) as Hn.
  destruct (Nat.eq_dec (rank x) 1) as [Hr | Hr].
  - rewrite (unsortedSegmentSum_rank1 x ids _ e Hd Hn Hr).
    do 2 eexists. split; [reflexivity |].
    assert (Hs : exists N, shape x = [N]).
    { unfold rank in Hr. destruct (shape x) as [| N [| d ds]];
        try discriminate. now exists N. }
    destruct Hs as [N Hs]. split; [reflexivity |]. split.
    + rewrite (kernel_inner_shape x ids n N [] Hs), Hs. reflexivity.
    + intros s rest _.
      cbn [values ENV_backend KernelBackend.unsortedSegmentSum].
      rewrite Hr. reflexivity.
  - pose proof (unsortedSegmentSum_permuted x ids _ e Hd Hn Hr) as H.
    cbv zeta in H. rewrite H. do 2 eexists. split; [reflexivity |].
    split; [reflexivity |].
    destruct (shape x) as [| N tlx] eqn:Hs.
    + unfold rank. rewrite Hs.
      cbn [length Nat.sub seq app shape values ArrayOps.transpose permuteList
           map nth ENV_backend KernelBackend.unsortedSegmentSum rank
           axis_util.getUndoAxesPermutation indexOf Nat.eqb replaceAt tl].
      rewrite Hs.
      cbn [length Nat.sub seq app shape values ArrayOps.transpose permuteList
           map nth ENV_backend KernelBackend.unsortedSegmentSum rank
           axis_util.getUndoAxesPermutation indexOf Nat.eqb replaceAt tl
           filter sumZ fold_right].
      split; [now rewrite Qfloor_Z, Nat2Z.id |].
      intros s rest _. unfold slicesOf. rewrite Hs. reflexivity.
    + unfold rank. rewrite Hs. cbn [length tl].
      replace (S (length tlx) - 1) with (length tlx) by lia.
      destruct (permuted_pipeline x ids n N tlx Hs) as [Hsh Hv].
      split; [exact Hsh |].
      intros s rest Hrest. apply Hv.
      destruct tlx as [| d ds].
      * exfalso. apply Hr. unfold rank. now rewrite Hs.
      * apply Hrest. simpl. lia.
Qed.
(* ------------------------------------------------------------------ *)
(** ** The forward reduction *)

(** C1: with the kernel executor as the spec describes it, slot [s] of the
    result is the elementwise sum of exactly the input slices [i] with
    [segmentIds[i] = s], each counted once, and is zero when no slice maps
    to [s].  The elements of a slot are addressed by the trailing indices of
    [x]; below rank 2 any trailing index will do. *)
Theorem unsortedSegmentSum_grouping (x ids : Tensor) (n : nat) (e : Engine) :
  dtype ids = DInt32 ->
  exists y e',
    SegmentOps.unsortedSegmentSum (ATensor x) (ATensor ids)
      (inject_Z (Z.of_nat n)) e = (Ok y, e') /\
    forall (s : nat) (rest : list nat),
      (2 <= rank x -> length rest = rank x - 1) ->
      values y (s :: rest) =
        sumZ (map (fun i => values x (i :: rest)) (slicesOf x ids s)) /\
      NoDup (slicesOf x ids s) /\
      (forall i, In i (slicesOf x ids s) <->
                 i < nth 0 (shape x) 0 /\ values ids [i] = Z.of_nat s) /\
      values y (s :: rest) =
        sumZ (map (fun i => if (values ids [i] =? Z.of_nat s)%Z
                            then values x (i :: rest) else 0%Z)
                  (seq 0 (nth 0 (shape x) 0))) /\
      ((forall i, i < nth 0 (shape x) 0 -> values ids [i] <> Z.of_nat s) ->
       values y (s :: rest) = 0%Z).
Proof.
  intros Hd.
  destruct (unsortedSegmentSum_end_to_end x ids n e Hd)
    as (y & e' & He & _ & _ & Hv).
  exists y, e'. split; [exact He |].
  intros s rest Hrest. rewrite (Hv s rest Hrest).
  split; [reflexivity |]. split.
  { unfold slicesOf. apply NoDup_filter, seq_NoDup. }
  split; [intros i; apply slicesOf_spec |]. split.
  { unfold slicesOf. apply sumZ_filter. }
  intros Hnone. unfold slicesOf. rewrite filter_none; [reflexivity |].
  intros i Hi. apply in_seq in Hi. apply Z.eqb_neq. apply Hnone. lia.
Qed.

Lemma unsortedSegmentSum_grouping_witness :
  exists y e',
    SegmentOps.unsortedSegmentSum (ATensor matrix23)
      (ATensor (tensor1d DInt32 [1; 1]%Z)) (inject_Z (Z.of_nat 3))
      emptyEngine = (Ok y, e') /\
    values y [1; 2] = 14%Z.
Proof.
  destruct (unsortedSegmentSum_grouping matrix23
              (tensor1d DInt32 [1; 1]%Z) 3 emptyEngine eq_refl)
    as (y & e' & Hrun & Hy).
  exists y, e'. split; [exact Hrun |].
  destruct (Hy 1 [2]) as [-> _]; reflexivity.
Defined.

(* ------------------------------------------------------------------ *)
(** ** Moving an axis to the front *)

Lemma frontPermutation_front (k r : nat) :
  k <> 0 -> k < r ->
  exists others,
    frontPermutation k r = Some (k :: others) /\
    ~ In k others /\ Permutation (k :: others) (seq 0 r).
Proof.
  intros Hk Hr. unfold frontPermutation.
  destruct (k =? 0) eqn:E; [apply Nat.eqb_eq in E; contradiction |].
  eexists. split; [reflexivity |].
  assert (Hin : forall j,
             In j (filter (fun j => negb (j =? k)) (seq 0 r))
             <-> j < r /\ j <> k).
  { intros j. rewrite filter_In, in_seq.
    rewrite negb_true_iff, Nat.eqb_neq. intuition lia. }
  split; [rewrite Hin; lia |].
  apply NoDup_Permutation.
  - constructor; [rewrite Hin; lia | apply NoDup_filter, seq_NoDup].
  - apply seq_NoDup.
  - intros j. simpl. rewrite Hin, in_seq.
    destruct (Nat.eq_dec j k); intuition lia.
Qed.

Lemma replaceAt_front {A} (l : list A) (v : A) :
  l <> [] -> replaceAt 0 l v = v :: tl l.
Proof. destruct l; simpl; congruence. Qed.

(** C9: reducing along axis [k], as the spec words it, is the same as
    bringing axis [k] to the front, running [unsortedSegmentSum] (which
    reduces along axis 0) and transposing the result back. *)
Theorem axis_generality (x ids : Tensor) (n k : nat) (e : Engine) :
  k < rank x -> dtype ids = DInt32 ->
  exists y e',
    SegmentOps.unsortedSegmentSum (ATensor (fst (normalize x k)))
      (ATensor ids) (inject_Z (Z.of_nat n)) e = (Ok y, e') /\
    tensorEq (denormalize y (snd (normalize x k)))
             (segmentSumAlong k x ids n).
Proof.
  intros Hk Hd.
  destruct (unsortedSegmentSum_end_to_end (fst (normalize x k)) ids n e Hd)
    as (y & e' & He & Hdt & Hsh & Hv).
  exists y, e'. split; [exact He |].
  unfold normalize in *. cbn [fst snd] in *.
  assert (Hne : shape x <> []).
  { unfold rank in Hk. destruct (shape x); simpl in Hk; [lia | congruence]. }
  destruct (Nat.eq_dec k 0) as [-> | Hk0].
  - change (frontPermutation 0 (rank x)) with (@None (list nat)) in *.
    unfold denormalize, tensorEq.
    split; [exact Hdt |]. unfold rank. rewrite Hsh.
    cbn [shape segmentSumAlong]. rewrite (replaceAt_front _ _ Hne).
    split; [reflexivity |].
    intros [| s rest] Hlen; [simpl in Hlen; lia |].
    rewrite Hv; [reflexivity |].
    intros _. unfold rank. simpl in Hlen.
    destruct (shape x); [congruence | simpl in *; lia].
  - destruct (frontPermutation_front k (rank x) Hk0 Hk)
      as (others & Hp & Hnk & Hperm).
    rewrite Hp in *. unfold denormalize, tensorEq.
    pose proof (perm_length _ _ Hperm) as Hlp. simpl in Hlp.
    split; [exact Hdt |].
    assert (Hshape :
      shape (ArrayOps.transpose y
               (axis_util.getUndoAxesPermutation (k :: others)))
      = replaceAt k (shape x) n).
    { cbn [shape ArrayOps.transpose]. rewrite Hsh.
      cbn [shape ArrayOps.transpose].
      replace (n :: tl (permuteList 0 (k :: others) (shape x)))
        with (permuteList 0 (k :: others) (replaceAt k (shape x) n)).
      - apply (undo_permute 0 (rank x)); [exact Hperm |].
        apply length_replaceAt.
      - rewrite permuteList_replaceAt by assumption. reflexivity. }
    split; [exact Hshape |].
    intros idx Hidx. unfold rank in Hidx. rewrite Hshape in Hidx.
    rewrite length_replaceAt in Hidx.
    cbn [values ArrayOps.transpose].
    rewrite (undo_undo (rank x) (k :: others) Hperm).
    change (permuteList 0 (k :: others) idx)
      with (nth k idx 0 :: permuteList 0 others idx).
    rewrite Hv.
    2:{ intros _. unfold rank. cbn [shape ArrayOps.transpose].
        rewrite !length_permuteList. simpl. lia. }
    cbn [segmentSumAlong values]. unfold slicesOf.
    cbn [shape ArrayOps.transpose].
    change (nth 0 (permuteList 0 (k :: others) (shape x)) 0)
      with (nth k (shape x) 0).
    f_equal. apply map_ext. intros i.
    cbn [values ArrayOps.transpose]. f_equal.
    replace (i :: permuteList 0 others idx)
      with (permuteList 0 (k :: others) (replaceAt k idx i)).
    + apply (undo_permute 0 (rank x)); [exact Hperm |].
      rewrite length_replaceAt. exact Hidx.
    + apply permuteList_replaceAt; [exact Hnk |].
      rewrite Hidx. exact Hk.
Qed.

Lemma axis_generality_witness :
  exists y e',
    SegmentOps.unsortedSegmentSum (ATensor (fst (normalize matrix23 1)))
      (ATensor (tensor1d DInt32 [1; 0; 1]%Z)) (inject_Z (Z.of_nat 2))
      emptyEngine = (Ok y, e') /\
    tensorEq (denormalize y (snd (normalize matrix23 1)))
             (segmentSumAlong 1 matrix23 (tensor1d DInt32 [1; 0; 1]%Z) 2).
Proof.
  apply (axis_generality matrix23 (tensor1d DInt32 [1; 0; 1]%Z) 2 1 emptyEngine).
  - unfold rank. simpl. lia.
  - reflexivity.
Defined.

(** Bringing an axis to the front and undoing it gives the array back. *)
(** Bringing an axis to the front and undoing it gives the array back. *)
Lemma denormalize_normalize (x : Tensor) (k : nat) :
  k < rank x ->
  tensorEq (denormalize (fst (normalize x k)) (snd (normalize x k))) x.
Proof.
  intros Hk. unfold normalize. cbn [fst snd].
  destruct (Nat.eq_dec k 0) as [-> | Hk0].
  - change (frontPermutation 0 (rank x)) with (@None (list nat)).
    unfold denormalize, tensorEq. auto.
  - destruct (frontPermutation_front k (rank x) Hk0 Hk)
      as (others & Hp & _ & Hperm).
    rewrite Hp. unfold denormalize. apply transpose_undo. exact Hperm.
Qed.

(** C4: the result of a valid call has shape [numSegments] followed by the
    dimensions of [x] after dimension 0, in their order; and the undo
    permutation inverts the permutation of the normalizer: transposing by
    one and then by the other gives the array back. *)
Theorem unsortedSegmentSum_shape (x ids : Tensor) (n : nat) (e : Engine) :
  dtype ids = DInt32 ->
  (exists y e',
     SegmentOps.unsortedSegmentSum (ATensor x) (ATensor ids)
       (inject_Z (Z.of_nat n)) e = (Ok y, e') /\
     shape y = n :: tl (shape x)) /\
  (forall p, Permutation p (seq 0 (rank x)) ->
     tensorEq (ArrayOps.transpose (ArrayOps.transpose x p)
                 (axis_util.getUndoAxesPermutation p)) x) /\
  (forall k, k < rank x ->
     tensorEq (denormalize (fst (normalize x k)) (snd (normalize x k))) x).
Proof.
  intros Hd. split; [| split].
  - destruct (unsortedSegmentSum_end_to_end x ids n e Hd)
      as (y & e' & He & _ & Hsh & _).
    exists y, e'. split; [exact He | exact Hsh].
  - intros p Hp. apply transpose_undo. exact Hp.
  - intros k Hk. apply denormalize_normalize. exact Hk.
Qed.

Lemma unsortedSegmentSum_shape_witness :
  exists y e',
    SegmentOps.unsortedSegmentSum (ATensor matrix23)
      (ATensor (tensor1d DInt32 [1; 0]%Z)) (inject_Z (Z.of_nat 4))
      emptyEngine = (Ok y, e') /\
    shape y = [4; 3].
Proof.
  exact (proj1 (unsortedSegmentSum_shape matrix23 (tensor1d DInt32 [1; 0]%Z)
                  4 emptyEngine eq_refl)).
Defined.


(* ------------------------------------------------------------------ *)
(** ** The permutation around the kernel call *)

(** C5, as the code stands: the permutation of line 56 is absent only for
    inputs of rank 1; there no transpose is performed and the kernel runs on
    [x] itself.  For every input of rank 2 or more the permutation is
    [[1; ...; rank-1; 0]]: [x] is transposed by it, so that dimension 0
    comes last, the kernel runs on the transposed array, and its result is
    transposed back by the undo permutation. *)
Theorem unsortedSegmentSum_transpose_by_rank
    (x ids : Tensor) (n : Q) (e : Engine) :
  dtype ids = DInt32 -> util.isInt n = true ->
  (rank x = 1 ->
   axis_util.getAxesPermutation [0] (rank x) = None /\
   SegmentOps.unsortedSegmentSum (ATensor x) (ATensor ids) n e =
   (Ok (KernelBackend.unsortedSegmentSum ENV_backend x ids n),
    {| kernelsRun := S (kernelsRun e);
       activeTape := activeTape e ++
         [{| nodeInputs := [("permutedX", x)];
             nodeOutput :=
               KernelBackend.unsortedSegmentSum ENV_backend x ids n;
             nodeGradient :=
               {| gradSegmentIds := ids; gradAxis := 0 |} |}] |})) /\
  (2 <= rank x ->
   let p := seq 1 (rank x - 1) ++ [0] in
   let permutedX := ArrayOps.transpose x p in
   let result :=
     KernelBackend.unsortedSegmentSum ENV_backend permutedX ids n in
   axis_util.getAxesPermutation [0] (rank x) = Some p /\
   shape permutedX = tl (shape x) ++ [nth 0 (shape x) 0] /\
   SegmentOps.unsortedSegmentSum (ATensor x) (ATensor ids) n e =
   (Ok (ArrayOps.transpose result (axis_util.getUndoAxesPermutation p)),
    {| kernelsRun := S (kernelsRun e);
       activeTape := activeTape e ++
         [{| nodeInputs := [("permutedX", permutedX)];
             nodeOutput := result;
             nodeGradient :=
               {| gradSegmentIds := ids; gradAxis := rank x - 1 |} |}] |})).
Proof.
  intros Hd Hn. split.
  - intros Hr. split.
    + rewrite Hr. apply getAxesPermutation_rank1.
    + apply unsortedSegmentSum_rank1; assumption.
  - intros Hr. cbv zeta.
    assert (Hr1 : rank x <> 1) by lia.
    split; [apply getAxesPermutation_rotation; exact Hr1 |]. split.
    + cbn [shape ArrayOps.transpose]. unfold rank in *.
      destruct (shape x) as [| N tlx]; [simpl in Hr; lia |].
      cbn [length tl nth]. replace (S (length tlx) - 1) with (length tlx) by lia.
      apply permuteList_rotation.
    + apply (unsortedSegmentSum_permuted x ids n e Hd Hn Hr1).
Qed.

Lemma unsortedSegmentSum_transpose_by_rank_witness :
  axis_util.getAxesPermutation [0] (rank matrix23) = Some [1; 0] /\
  shape (ArrayOps.transpose matrix23 [1; 0]) = [3; 2].
Proof.
  destruct (proj2 (unsortedSegmentSum_transpose_by_rank matrix23
                     (tensor1d DInt32 [1; 0]%Z) (inject_Z 2) emptyEngine
                     eq_refl eq_refl) ltac:(unfold rank; simpl; lia))
    as (H1 & H2 & _).
  split; [exact H1 | exact H2].
Defined.

(** C5 as stated fails: for a rank-2 input a permutation is computed and the
    array handed to the kernel is the transposed one, of shape [[3; 2]], not
    [x] itself. *)
Lemma no_transpose_rank2_counterexample :
  axis_util.getAxesPermutation [0] (rank matrix23) <> None /\
  exists y e' node px,
    SegmentOps.unsortedSegmentSum (ATensor matrix23)
      (ATensor (tensor1d DInt32 [1; 0]%Z)) (inject_Z 2) emptyEngine
      = (Ok y, e') /\
    activeTape e' = [node] /\
    nodeInputs node = [("permutedX", px)] /\
    shape px = [3; 2] /\ px <> matrix23.
Proof.
  split; [discriminate |].
  pose proof (unsortedSegmentSum_permuted matrix23 (tensor1d DInt32 [1; 0]%Z)
                (inject_Z 2) emptyEngine eq_refl eq_refl
                ltac:(unfold rank; simpl; lia)) as H.
  cbv zeta in H. do 4 eexists. split; [exact H |].
  split; [reflexivity |]. split; [reflexivity |]. split; [reflexivity |].
  intros E. apply (f_equal shape) in E. discriminate E.
Qed.

(* ------------------------------------------------------------------ *)
(** ** The registered gradient *)



(* ------------------------------------------------------------------ *)
(** ** Broadcasting facts *)

Lemma broadcastDim_refl (d : nat) : broadcastDim d d = Some d.
Proof. unfold broadcastDim. now rewrite Nat.eqb_refl. Qed.

Lemma broadcastDim_unit_r (d : nat) : broadcastDim d 1 = Some d.
Proof.
  unfold broadcastDim. destruct (d =? 1) eqn:E; reflexivity.
Qed.

Lemma broadcastDim_unit_l (d : nat) : broadcastDim 1 d = Some d.
Proof.
  unfold broadcastDim. destruct (1 =? d) eqn:E; [| reflexivity].
  apply Nat.eqb_eq in E. now subst.
Qed.

Lemma broadcastDims_refl (s : list nat) : broadcastDims s s = Some s.
Proof.
  induction s as [| d s IH]; simpl; [reflexivity |].
  now rewrite broadcastDim_refl, IH.
Qed.

Lemma broadcastDims_units (s : list nat) :
  broadcastDims s (repeat 1 (length s)) = Some s.
Proof.
  induction s as [| d s IH]; simpl; [reflexivity |].
  now rewrite broadcastDim_unit_r, IH.
Qed.

Lemma broadcastShape_refl (s : list nat) :
  assertAndGetBroadcastShape s s = Some s.
Proof.
  unfold assertAndGetBroadcastShape, padLeft.
  rewrite Nat.max_id, Nat.sub_diag. simpl. apply broadcastDims_refl.
Qed.

Lemma broadcastShape_scalar (s : list nat) :
  assertAndGetBroadcastShape s [] = Some s.
Proof.
  unfold assertAndGetBroadcastShape, padLeft. simpl length.
  rewrite Nat.max_0_r, Nat.sub_diag, Nat.sub_0_r, app_nil_r. simpl.
  apply broadcastDims_units.
Qed.

Lemma broadcastOp_ok (f : Z -> Z -> Z) (dt : DataType) (a b : Tensor)
    (s : list nat) :
  assertAndGetBroadcastShape (shape a) (shape b) = Some s ->
  exists t,
    broadcastOp f dt a b = Ok t /\ dtype t = dt /\ shape t = s /\
    forall idx, values t idx =
                f (values a (broadcastIndex (shape a) idx))
                  (values b (broadcastIndex (shape b) idx)).
Proof.
  intros H. unfold broadcastOp. rewrite H. eexists. split; [reflexivity |].
  simpl. auto.
Qed.

Lemma broadcastIndex_vector (n i : nat) :
  i < n -> broadcastIndex [n] [i] = [i].
Proof.
  intros H. unfold broadcastIndex. simpl.
  destruct (n =? 1) eqn:E; [| reflexivity].
  apply Nat.eqb_eq in E. f_equal. lia.
Qed.

(* ------------------------------------------------------------------ *)
(** ** The indices handed to [gather] *)

Lemma zeroClippedIndices_ok (ids : Tensor) :
  exists z,
    zeroClippedIndices ids = Ok z /\ dtype z = dtype ids /\
    shape z = shape ids /\
    forall idx, values z idx =
                Z.max (values ids (broadcastIndex (shape ids) idx)) 0.
Proof.
  unfold zeroClippedIndices, BinaryOps.maximum.
  destruct (broadcastOp_ok Z.max (dtype ids) ids (ArrayOps.zerosLike ids)
              (shape ids) (broadcastShape_refl _)) as (z & Hz & Hd & Hs & Hv).
  exists z. repeat split; try assumption.
Qed.

Lemma gatherInBounds_spec (x indices : Tensor) (axis : nat) :
  gatherInBounds x indices axis = true <->
  forall i, i < size indices ->
    (0 <= values indices [i] < Z.of_nat (nth axis (shape x) 0%nat))%Z.
Proof.
  unfold gatherInBounds. rewrite forallb_forall. split.
  - intros H i Hi. specialize (H i). rewrite in_seq in H.
    assert (Hc : 0 <= i < 0 + size indices) by lia.
    apply H in Hc. apply andb_true_iff in Hc. lia.
  - intros H i Hi. apply in_seq in Hi. specialize (H i).
    apply andb_true_iff. assert (Hc : i < size indices) by lia.
    apply H in Hc. lia.
Qed.

(** C7, as the code stands: every index handed to [gather] is
    [max(segmentIds[i], 0)], hence non-negative; and the gather stays in
    bounds whenever every id is below the size of [dy] along the gather
    axis and, in addition, that size is positive or no id is negative. *)
Theorem gather_indices_clipped (dy ids : Tensor) (axis N : nat) :
  shape ids = [N] ->
  exists z,
    zeroClippedIndices ids = Ok z /\
    gatherDropNegatives dy ids axis =
      rbind (dropMask (ArrayOps.gather dy z axis) ids)
            (fun m => LogicalOps.where_ m (ArrayOps.gather dy z axis)
                        (ArrayOps.zerosLike (ArrayOps.gather dy z axis))) /\
    (forall idx, (0 <= values z idx)%Z) /\
    (forall i, i < N -> values z [i] = Z.max (values ids [i]) 0) /\
    ((forall i, i < N ->
        (values ids [i] < Z.of_nat (nth axis (shape dy) 0%nat))%Z) ->
     (0 < nth axis (shape dy) 0 \/
      forall i, i < N -> (0 <= values ids [i])%Z) ->
     gatherInBounds dy z axis = true).
Proof.
  intros Hs. destruct (zeroClippedIndices_ok ids) as (z & Hz & Hd & Hsz & Hv).
  exists z. split; [exact Hz |]. split.
  { unfold gatherDropNegatives. rewrite Hz. reflexivity. }
  assert (Hvi : forall i, i < N -> values z [i] = Z.max (values ids [i]) 0).
  { intros i Hi. rewrite Hv, Hs, broadcastIndex_vector by exact Hi.
    reflexivity. }
  split; [intros idx; rewrite Hv; lia |]. split; [exact Hvi |].
  intros Hlt Hpos. apply gatherInBounds_spec. intros i Hi.
  unfold size in Hi. rewrite Hsz, Hs in Hi. simpl in Hi.
  assert (HiN : i < N) by lia.
  rewrite (Hvi i HiN). specialize (Hlt i HiN).
  destruct Hpos as [Hpos | Hpos]; [lia |]. specialize (Hpos i HiN). lia.
Qed.

Lemma gather_indices_clipped_witness :
  exists z,
    zeroClippedIndices (tensor1d DInt32 [-1; 0]%Z) = Ok z /\
    gatherInBounds (tensor1d DFloat32 [1]%Z) z 0 = true.
Proof.
  destruct (gather_indices_clipped (tensor1d DFloat32 [1]%Z)
              (tensor1d DInt32 [-1; 0]%Z) 0 2 eq_refl)
    as (z & Hz & _ & _ & _ & Hb).
  exists z. split; [exact Hz |]. apply Hb.
  - intros [| [| i]] Hi; simpl; lia.
  - left. simpl. lia.
Defined.

(** C7 as stated fails: with an empty [dy] (size 0 along the gather axis)
    every id [-1] is below that size, yet [gather] is handed the index 0,
    which addresses no slice. *)
Lemma gather_out_of_bounds_counterexample :
  (forall i, i < 1 ->
     (values (tensor1d DInt32 [-1]%Z) [i]
      < Z.of_nat (nth 0 (shape dyEmpty) 0%nat))%Z) /\
  exists z,
    zeroClippedIndices (tensor1d DInt32 [-1]%Z) = Ok z /\
    values z [0] = 0%Z /\
    gatherInBounds dyEmpty z 0 = false.
Proof.
  split.
  - intros [| i] Hi; simpl; lia.
  - eexists. split; [reflexivity |]. split; reflexivity.
Qed.

(* ------------------------------------------------------------------ *)
(** ** The mask of [gatherDropNegatives] *)

(** Every value of [t] is the truth value of [indices >= 0] somewhere. *)
Lemma expandLoop_mask (indices : Tensor) (fuel r i : nat) (t : Tensor) :
  (forall idx, exists j,
      values t idx = if (0 <=? values indices j)%Z then 1%Z else 0%Z) ->
  forall idx, exists j,
      values (expandLoop fuel r i t) idx =
      if (0 <=? values indices j)%Z then 1%Z else 0%Z.
Proof.
  revert i t. induction fuel as [| fuel IH]; intros i t Ht; simpl;
    [exact Ht |].
  destruct (i <? r - rank t); [| exact Ht].
  apply IH. intros idx. simpl. apply Ht.
Qed.

Lemma expandedIsPositive_ok (gathered indices : Tensor) :
  exists isPositive0,
    CompareOps.greaterEqual indices (ArrayOps.scalar 0 DInt32)
      = Ok isPositive0 /\
    shape isPositive0 = shape indices /\
    (forall idx, values isPositive0 idx =
       if (0 <=? values indices (broadcastIndex (shape indices) idx))%Z
       then 1%Z else 0%Z) /\
    expandedIsPositive gathered indices =
      Ok (expandLoop (rank gathered) (rank gathered) 0 isPositive0).
Proof.
  unfold expandedIsPositive, CompareOps.greaterEqual.
  destruct (broadcastOp_ok
              (fun u v => if (v <=? u)%Z then 1%Z else 0%Z) DBool indices
              (ArrayOps.scalar 0 DInt32) (shape indices)
              (broadcastShape_scalar _)) as (t & Ht & _ & Hs & Hv).
  exists t. rewrite Ht. repeat split; try assumption.
Qed.

Lemma bools_ok (gathered : Tensor) :
  exists b,
    bools gathered = Ok b /\ shape b = shape gathered /\
    forall idx, values b idx = 1%Z.
Proof.
  unfold bools, CompareOps.equal.
  destruct (broadcastOp_ok
              (fun u v => if (u =? v)%Z then 1%Z else 0%Z) DBool
              (ArrayOps.onesLike gathered) (ArrayOps.scalar 1 DFloat32)
              (shape gathered) (broadcastShape_scalar _))
    as (t & Ht & _ & Hs & Hv).
  exists t. split; [exact Ht |]. split; [exact Hs |].
  intros idx. rewrite Hv. reflexivity.
Qed.

(** C8: the all-true mask is all true, so the logical AND only stretches
    the rank-expanded [isPositive]: whenever the two shapes broadcast, the
    mask handed to [where] has, at every position, the value of
    [segmentIds >= 0] broadcast to that position (and the values of
    [isPositive] are truth values of [segmentIds >= 0]); when they do not
    broadcast, the AND fails with a shape mismatch. *)
Theorem dropMask_and_is_broadcast (gathered indices : Tensor) :
  exists isPositive b,
    expandedIsPositive gathered indices = Ok isPositive /\
    bools gathered = Ok b /\
    shape b = shape gathered /\
    (forall idx, values b idx = 1%Z) /\
    (forall idx, exists j,
        values isPositive idx =
        if (0 <=? values indices j)%Z then 1%Z else 0%Z) /\
    dropMask gathered indices = LogicalOps.logicalAnd isPositive b /\
    match assertAndGetBroadcastShape (shape isPositive) (shape gathered) with
    | Some s =>
        exists m,
          dropMask gathered indices = Ok m /\ shape m = s /\
          forall idx, values m idx = values (broadcastTo s isPositive) idx
    | None =>
        dropMask gathered indices =
        Throw (ShapeMismatchError (shape isPositive) (shape gathered))
    end.
Proof.
  destruct (expandedIsPositive_ok gathered indices)
    as (t0 & _ & _ & Hv0 & Hip).
  destruct (bools_ok gathered) as (b & Hb & Hsb & Hvb).
  set (ip := expandLoop (rank gathered) (rank gathered) 0 t0) in *.
  assert (Hmask : forall idx, exists j,
             values ip idx = if (0 <=? values indices j)%Z then 1%Z else 0%Z).
  { apply expandLoop_mask. intros idx. eexists. apply Hv0. }
  assert (Hdm : dropMask gathered indices = LogicalOps.logicalAnd ip b).
  { unfold dropMask. rewrite Hip, Hb. reflexivity. }
  exists ip, b. repeat (split; [assumption |]).
  destruct (assertAndGetBroadcastShape (shape ip) (shape gathered)) as [s |]
    eqn:E.
  - rewrite <- Hsb in E.
    destruct (broadcastOp_ok
                (fun u v => if LogicalOps.truthy u && LogicalOps.truthy v
                            then 1%Z else 0%Z) DBool ip b s E)
      as (m & Hm & _ & Hs & Hv).
    exists m. rewrite Hdm. split; [exact Hm |]. split; [exact Hs |].
    intros idx. rewrite Hv, Hvb. simpl.
    destruct (Hmask (broadcastIndex (shape ip) idx)) as [j ->].
    destruct (0 <=? values indices j)%Z; reflexivity.
  - rewrite Hdm. unfold LogicalOps.logicalAnd, broadcastOp.
    rewrite Hsb, E. reflexivity.
Qed.

(* ------------------------------------------------------------------ *)
(** ** The loop of lines 89-91 *)

Lemma expandDims_last_position (t : Tensor) :
  Z.to_nat (Z.max (Z.of_nat (rank t) + -1) 0) = rank t - 1.
Proof. lia. Qed.

Lemma expandDims_last_rank (t : Tensor) :
  rank (ArrayOps.expandDims t (-1)) = S (rank t).
Proof.
  unfold rank at 1, ArrayOps.expandDims. cbn [shape].
  change (-1 <? 0)%Z with true. cbv iota.
  rewrite length_app. cbn [length]. rewrite Nat.add_succ_r.
  rewrite <- length_app, firstn_skipn. reflexivity.
Qed.

(** On a mask of shape [[1; ...; 1; N]] the singleton goes before [N], and
    the element at an index is the one at the index without its entry for
    the new dimension. *)
Lemma expandDims_inner (t : Tensor) (j N : nat) :
  shape t = repeat 1 j ++ [N] ->
  shape (ArrayOps.expandDims t (-1)) = repeat 1 (S j) ++ [N] /\
  forall idx, values (ArrayOps.expandDims t (-1)) idx =
              values t (firstn j idx ++ skipn (S j) idx).
Proof.
  intros Hs.
  assert (Hp : rank t - 1 = j).
  { unfold rank. rewrite Hs, length_app, repeat_length. simpl. lia. }
  unfold ArrayOps.expandDims. cbn [shape values].
  change (-1 <? 0)%Z with true. cbv iota.
  rewrite expandDims_last_position, Hp. split; [| reflexivity].
  rewrite Hs.
  rewrite firstn_app, repeat_length, Nat.sub_diag, firstn_O, app_nil_r.
  rewrite firstn_all2 by (rewrite repeat_length; lia).
  rewrite skipn_app, repeat_length, Nat.sub_diag, skipn_O.
  rewrite skipn_all2 by (rewrite repeat_length; lia).
  change (repeat 1 (S j)) with (1 :: repeat 1 j).
  rewrite repeat_cons, <- app_assoc. reflexivity.
Qed.


(** The fuel given to the loop is enough: more fuel changes nothing. *)
Lemma expandLoop_fuel (r fuel extra i : nat) (t : Tensor) :
  r - i <= fuel ->
  expandLoop (fuel + extra) r i t = expandLoop fuel r i t.
Proof.
  revert i t. induction fuel as [| fuel IH]; intros i t H.
  - destruct extra as [| extra]; simpl; [reflexivity |].
    destruct (i <? r - rank t) eqn:E; [| reflexivity].
    apply Nat.ltb_lt in E. lia.
  - simpl. destruct (i <? r - rank t); [| reflexivity].
    apply IH. lia.
Qed.

(** Starting from a mask of rank 1, the loop stops at rank [1 + r / 2]:
    each turn raises [i] and the rank of [isPositive] together. *)
Lemma expandLoop_rank_from (r h fuel i : nat) (t : Tensor) :
  r = 2 * h \/ r = 2 * h + 1 ->
  rank t = 1 + i -> i <= h -> h - i <= fuel ->
  rank (expandLoop fuel r i t) = 1 + h.
Proof.
  intros Hr. revert i t.
  induction fuel as [| fuel IH]; intros i t Ht Hi Hf; simpl.
  - rewrite Ht. lia.
  - destruct (i <? r - rank t) eqn:E.
    + apply Nat.ltb_lt in E. rewrite Ht in E.
      apply IH; [rewrite expandDims_last_rank; lia | lia | lia].
    + apply Nat.ltb_ge in E. rewrite Ht in *. lia.
Qed.

(** Whatever the number of turns, the mask keeps a shape [[1; ...; 1; N]]
    and reads the rank-1 mask at the last entry of the index. *)
Lemma expandLoop_inner (t0 : Tensor) (N fuel r i j : nat) (t : Tensor) :
  shape t = repeat 1 j ++ [N] ->
  (forall pre a, length pre = j -> values t (pre ++ [a]) = values t0 [a]) ->
  exists h,
    shape (expandLoop fuel r i t) = repeat 1 h ++ [N] /\
    forall pre a, length pre = h ->
      values (expandLoop fuel r i t) (pre ++ [a]) = values t0 [a].
Proof.
  revert i j t. induction fuel as [| fuel IH]; intros i j t Hs Hv; simpl.
  - exists j. auto.
  - destruct (i <? r - rank t); [| exists j; auto].
    destruct (expandDims_inner t j N Hs) as [Hs' Hv'].
    apply (IH (S i) (S j)); [exact Hs' |].
    intros pre a Hpre. rewrite Hv'.
    rewrite firstn_app, skipn_app, Hpre.
    replace (j - S j) with 0 by lia. rewrite Nat.sub_diag.
    rewrite skipn_all2 by lia. cbn [firstn skipn app]. rewrite app_nil_r.
    apply Hv. rewrite length_firstn. lia.
Qed.

(* ------------------------------------------------------------------ *)
(** ** [gatherDropNegatives] along the innermost axis *)

Lemma where_ok (c a b : Tensor) :
  shape a = shape b -> shape c = shape a ->
  exists res,
    LogicalOps.where_ c a b = Ok res /\ shape res = shape a /\
    forall idx, values res idx =
                if LogicalOps.truthy (values c idx) then values a idx
                else values b idx.
Proof.
  intros Hab Hca. unfold LogicalOps.where_.
  destruct (list_eq_dec Nat.eq_dec (shape a) (shape b)); [| contradiction].
  destruct (list_eq_dec Nat.eq_dec (shape c) (shape a)); [| contradiction].
  eexists. split; [reflexivity |]. simpl. auto.
Qed.

(** Once the expanded mask broadcasts to the gathered shape and reads
    [segmentIds[i] >= 0] on slice [i], the reconstruction is the gathered
    slice where the id is non-negative and zero elsewhere. *)
Lemma broadcastDims_inner (ps : list nat) (N : nat) :
  broadcastDims (repeat 1 (length ps) ++ [N]) (ps ++ [N]) = Some (ps ++ [N]).
Proof.
  induction ps as [| d ps IH]; simpl.
  - now rewrite broadcastDim_refl.
  - now rewrite broadcastDim_unit_l, IH.
Qed.

(** A mask [[1; ...; 1; N]] of rank at most that of [ps ++ [N]] broadcasts
    to it. *)
Lemma broadcastShape_inner (h N : nat) (ps : list nat) :
  h <= length ps ->
  assertAndGetBroadcastShape (repeat 1 h ++ [N]) (ps ++ [N])
  = Some (ps ++ [N]).
Proof.
  intros Hh. unfold assertAndGetBroadcastShape, padLeft.
  rewrite !length_app, repeat_length. cbn [length].
  replace (Nat.max (h + 1) (length ps + 1)) with (length ps + 1) by lia.
  rewrite Nat.sub_diag. cbn [repeat app].
  replace (length ps + 1 - (h + 1)) with (length ps - h) by lia.
  rewrite app_assoc, <- repeat_app.
  replace (length ps - h + h) with (length ps) by lia.
  apply broadcastDims_inner.
Qed.

Lemma squashUnit_inner (h N i : nat) (q : list nat) :
  length q = h -> i < N ->
  squashUnit (repeat 1 h ++ [N]) (q ++ [i]) = repeat 0 h ++ [i].
Proof.
  revert q. induction h as [| h IH]; intros q Hq Hi.
  - destruct q; [| discriminate]. simpl.
    destruct (N =? 1) eqn:E; [| reflexivity].
    apply Nat.eqb_eq in E. f_equal. lia.
  - destruct q as [| a q]; [discriminate |]. simpl. f_equal.
    apply IH; [simpl in Hq; lia | exact Hi].
Qed.

Lemma broadcastIndex_inner (h N i : nat) (pre : list nat) :
  h <= length pre -> i < N ->
  broadcastIndex (repeat 1 h ++ [N]) (pre ++ [i]) = repeat 0 h ++ [i].
Proof.
  intros Hh Hi. unfold broadcastIndex.
  rewrite !length_app, repeat_length. cbn [length].
  replace (length pre + 1 - (h + 1)) with (length pre - h) by lia.
  rewrite skipn_app.
  replace (length pre - h - length pre) with 0 by lia. rewrite skipn_O.
  apply squashUnit_inner; [| exact Hi].
  rewrite length_skipn. lia.
Qed.

(** The reconstruction along the innermost axis, for a gradient of any rank:
    the mask broadcasts to the gathered shape and follows that axis, so the
    slice at a position is zero where the id is negative and the slice of
    [dy] at the id elsewhere. *)
Lemma gatherDropNegatives_innermost (dy ids : Tensor) (N S0 : nat)
    (ps : list nat) :
  shape ids = [N] -> shape dy = ps ++ [S0] ->
  exists res,
    gatherDropNegatives dy ids (length ps) = Ok res /\
    shape res = ps ++ [N] /\
    forall pre i, length pre = length ps -> i < N ->
      values res (pre ++ [i]) =
      if (values ids [i] <? 0)%Z then 0%Z
      else values dy (pre ++ [Z.to_nat (values ids [i])]).
Proof.
  intros Hids Hdy.
  destruct (zeroClippedIndices_ok ids) as (z & Hz & _ & Hsz & Hvz).
  set (gathered := ArrayOps.gather dy z (length ps)).
  assert (Hsg : shape gathered = ps ++ [N]).
  { unfold gathered, ArrayOps.gather, size. cbn [shape].
    rewrite Hdy, Hsz, Hids. simpl. rewrite Nat.mul_1_r. apply replaceAt_last. }
  assert (Hrg : rank gathered = S (length ps)).
  { unfold rank. rewrite Hsg, length_app. simpl. lia. }
  destruct (expandedIsPositive_ok gathered ids) as (t0 & _ & Hs0 & Hv0 & Hip).
  assert (Hr0 : rank t0 = 1) by (unfold rank; now rewrite Hs0, Hids).
  set (ip := expandLoop (rank gathered) (rank gathered) 0 t0) in *.
  destruct (expandLoop_inner t0 N (rank gathered) (rank gathered) 0 0 t0)
    as (h & Hsip & Hvip).
  { now rewrite Hs0, Hids. }
  { intros pre a Hpre. destruct pre; [reflexivity | discriminate]. }
  fold ip in Hsip, Hvip.
  assert (Hh : h <= length ps).
  { assert (Hrank : exists h', rank ip = 1 + h' /\ h' <= length ps).
    { destruct (Nat.Even_or_Odd (rank gathered)) as [[h' Hh'] | [h' Hh']];
        exists h'; (split;
          [apply (expandLoop_rank_from (rank gathered) h'); lia | lia]). }
    destruct Hrank as (h' & Hrk & Hle).
    unfold rank in Hrk. rewrite Hsip, length_app, repeat_length in Hrk.
    simpl in Hrk. lia. }
  destruct (bools_ok gathered) as (b & Hb & Hsb & Hvb).
  assert (Hbs : assertAndGetBroadcastShape (shape ip) (shape b)
                = Some (ps ++ [N])).
  { rewrite Hsip, Hsb, Hsg. apply broadcastShape_inner. exact Hh. }
  destruct (broadcastOp_ok
              (fun u v => if LogicalOps.truthy u && LogicalOps.truthy v
                          then 1%Z else 0%Z) DBool ip b _ Hbs)
    as (m & Hm & _ & Hsm & Hvm).
  destruct (where_ok m gathered (ArrayOps.zerosLike gathered))
    as (res & Hres & Hsres & Hvres); [reflexivity | congruence |].
  exists res. split; [| split].
  - unfold gatherDropNegatives. rewrite Hz. cbn [rbind].
    fold gathered. unfold dropMask. rewrite Hip. fold ip. rewrite Hb.
    cbn [rbind]. unfold LogicalOps.logicalAnd. rewrite Hm. cbn [rbind].
    exact Hres.
  - congruence.
  - intros pre i Hpre Hi. rewrite Hvres, Hvm, Hvb, Hsip.
    rewrite broadcastIndex_inner by (lia || exact Hi).
    rewrite Hvip by apply repeat_length.
    rewrite Hv0, Hids, broadcastIndex_vector by exact Hi.
    unfold gathered at 1. cbn [values ArrayOps.gather ArrayOps.zerosLike].
    rewrite <- Hpre, nth_last, replaceAt_last.
    rewrite Hvz, Hids, broadcastIndex_vector by exact Hi.
    destruct (0 <=? values ids [i])%Z eqn:E.
    + apply Z.leb_le in E. cbn.
      destruct (values ids [i] <? 0)%Z eqn:E'; [apply Z.ltb_lt in E'; lia |].
      now rewrite Z.max_l by lia.
    + apply Z.leb_gt in E. cbn.
      destruct (values ids [i] <? 0)%Z eqn:E'; [reflexivity |].
      apply Z.ltb_ge in E'. lia.
Qed.

(** C2: whatever the upstream gradient [dy] holds, the reconstruction along
    the innermost axis (the axis the registered closure hands over) has an
    exactly-zero slice at every position whose segment id is negative.  On
    the scenario [x = [10, 20]], [segmentIds = [-1, 0]], [numSegments = 1]
    the call returns [[20]] and its closure maps [dy = [1]] to [[0, 1]]. *)
Theorem gatherDropNegatives_negative_id_zero (dy ids : Tensor) (N S0 : nat)
    (ps : list nat) :
  shape ids = [N] -> shape dy = ps ++ [S0] ->
  (exists res,
     gatherDropNegatives dy ids (rank dy - 1) = Ok res /\
     shape res = ps ++ [N] /\
     forall pre i, length pre = length ps -> i < N ->
       (values ids [i] < 0)%Z -> values res (pre ++ [i]) = 0%Z) /\
  (exists y e' node g,
     SegmentOps.unsortedSegmentSum (ATensor (tensor1d DFloat32 [10; 20]%Z))
       (ATensor (tensor1d DInt32 [-1; 0]%Z)) (inject_Z 1) emptyEngine
     = (Ok y, e') /\
     dataSync y = [20%Z] /\ activeTape e' = [node] /\
     derX (nodeGradient node) (tensor1d DFloat32 [1]%Z) tt = Ok g /\
     dataSync g = [0; 1]%Z).
Proof.
  intros Hids Hdy. split.
  - destruct (gatherDropNegatives_innermost dy ids N S0 ps Hids Hdy)
      as (res & Hres & Hs & Hv).
    exists res.
    replace (rank dy - 1) with (length ps)
      by (unfold rank; rewrite Hdy, length_app; simpl; lia).
    split; [exact Hres |]. split; [exact Hs |].
    intros pre i Hpre Hi Hneg. rewrite (Hv pre i Hpre Hi).
    destruct (values ids [i] <? 0)%Z eqn:E; [reflexivity |].
    apply Z.ltb_ge in E. lia.
  - pose proof (unsortedSegmentSum_rank1 (tensor1d DFloat32 [10; 20]%Z)
                  (tensor1d DInt32 [-1; 0]%Z) (inject_Z 1) emptyEngine
                  eq_refl eq_refl eq_refl) as H.
    do 4 eexists. split; [exact H |].
    split; [reflexivity |]. split; [reflexivity |]. split; reflexivity.
Qed.

Lemma gatherDropNegatives_negative_id_zero_witness :
  exists res,
    gatherDropNegatives dyRank3 (tensor1d DInt32 [-1; 0]%Z) (rank dyRank3 - 1)
    = Ok res /\
    values res [1; 0; 0] = 0%Z.
Proof.
  destruct (proj1 (gatherDropNegatives_negative_id_zero dyRank3
                     (tensor1d DInt32 [-1; 0]%Z) 2 1 [2; 1] eq_refl eq_refl))
    as (res & Hres & _ & Hv).
  exists res. split; [exact Hres |].
  apply (Hv [1; 0] 0); [reflexivity | lia | simpl; lia].
Defined.

(** C3: at every position whose segment id is non-negative and below the
    size of [dy] along the gather axis, the slice of the reconstruction is
    the slice of [dy] at that id. *)
Theorem gatherDropNegatives_gathered_slice (dy ids : Tensor) (N S0 : nat)
    (ps : list nat) :
  shape ids = [N] -> shape dy = ps ++ [S0] ->
  exists res,
    gatherDropNegatives dy ids (rank dy - 1) = Ok res /\
    shape res = ps ++ [N] /\
    forall pre i, length pre = length ps -> i < N ->
      (0 <= values ids [i] < Z.of_nat S0)%Z ->
      values res (pre ++ [i]) =
      values dy (pre ++ [Z.to_nat (values ids [i])]).
Proof.
  intros Hids Hdy.
  destruct (gatherDropNegatives_innermost dy ids N S0 ps Hids Hdy)
    as (res & Hres & Hs & Hv).
  exists res.
  replace (rank dy - 1) with (length ps)
    by (unfold rank; rewrite Hdy, length_app; simpl; lia).
  split; [exact Hres |]. split; [exact Hs |].
  intros pre i Hpre Hi Hpos. rewrite (Hv pre i Hpre Hi).
  destruct (values ids [i] <? 0)%Z eqn:E; [| reflexivity].
  apply Z.ltb_lt in E. lia.
Qed.

Lemma gatherDropNegatives_gathered_slice_witness :
  exists res,
    gatherDropNegatives dyRank3 (tensor1d DInt32 [-1; 0]%Z) (rank dyRank3 - 1)
    = Ok res /\
    values res [1; 0; 1] = values dyRank3 [1; 0; 0].
Proof.
  destruct (gatherDropNegatives_gathered_slice dyRank3
              (tensor1d DInt32 [-1; 0]%Z) 2 1 [2; 1] eq_refl eq_refl)
    as (res & Hres & _ & Hv).
  exists res. split; [exact Hres |].
  apply (Hv [1; 0] 1); [reflexivity | lia | simpl; lia].
Defined.

(* ------------------------------------------------------------------ *)
(** ** Further properties of the loop of lines 89-91 *)

(** X1: started on a mask of rank 1, the loop of lines 89-91 ends with a
    mask of rank [1 + gathered.rank / 2], however many more turns it is
    allowed; the mask reaches the rank of the gathered array exactly for
    ranks 1 and 2. *)
Theorem expandLoop_final_rank (r fuel : nat) (t : Tensor) :
  rank t = 1 -> r <= fuel ->
  expandLoop fuel r 0 t = expandLoop r r 0 t /\
  rank (expandLoop fuel r 0 t) = 1 + r / 2 /\
  (rank (expandLoop fuel r 0 t) = r <-> r = 1 \/ r = 2).
Proof.
  intros Ht Hf.
  assert (Hfuel : expandLoop fuel r 0 t = expandLoop r r 0 t).
  { replace fuel with (r + (fuel - r)) by lia. apply expandLoop_fuel. lia. }
  pose proof (Nat.div_mod_eq r 2) as Hdm.
  pose proof (Nat.mod_upper_bound r 2 ltac:(lia)) as Hm.
  assert (Hrank : rank (expandLoop fuel r 0 t) = 1 + r / 2).
  { rewrite Hfuel. apply (expandLoop_rank_from r (r / 2)); lia. }
  split; [exact Hfuel |]. split; [exact Hrank |].
  rewrite Hrank. lia.
Qed.

Lemma expandLoop_final_rank_witness :
  rank (expandLoop 7 3 0 (tensor1d DBool [0; 1]%Z)) = 1 + 3 / 2.
Proof.
  exact (proj1 (proj2 (expandLoop_final_rank 3 7 (tensor1d DBool [0; 1]%Z)
                         eq_refl ltac:(lia)))).
Defined.


(* ------------------------------------------------------------------ *)
(** ** The registered gradient, for every rank *)




(** X4: along the innermost axis, for a gradient of any rank from 1 on:
    when no segment id is negative the reconstruction is the plain gather of
    [dy] at the ids; when every id is negative it is zero everywhere,
    whatever [dy] holds. *)
Theorem gatherDropNegatives_is_gather (dy ids : Tensor) (N S0 : nat)
    (ps : list nat) :
  shape ids = [N] -> shape dy = ps ++ [S0] ->
  exists res,
    gatherDropNegatives dy ids (length ps) = Ok res /\
    shape res = shape (ArrayOps.gather dy ids (length ps)) /\
    ((forall i, i < N -> (0 <= values ids [i])%Z) ->
     forall pre i, length pre = length ps -> i < N ->
       values res (pre ++ [i]) =
       values (ArrayOps.gather dy ids (length ps)) (pre ++ [i])) /\
    ((forall i, i < N -> (values ids [i] < 0)%Z) ->
     forall pre i, length pre = length ps -> i < N ->
       values res (pre ++ [i]) = 0%Z).
Proof.
  intros Hids Hdy.
  destruct (gatherDropNegatives_innermost dy ids N S0 ps Hids Hdy)
    as (res & Hres & Hs & Hv).
  exists res. split; [exact Hres |]. split; [| split].
  - rewrite Hs. unfold ArrayOps.gather, size. cbn [shape].
    rewrite Hdy, Hids. simpl. rewrite Nat.mul_1_r. symmetry.
    apply replaceAt_last.
  - intros Hpos pre i Hpre Hi. rewrite (Hv pre i Hpre Hi).
    specialize (Hpos i Hi).
    destruct (values ids [i] <? 0)%Z eqn:E; [apply Z.ltb_lt in E; lia |].
    cbn [values ArrayOps.gather]. rewrite <- Hpre, nth_last, replaceAt_last.
    reflexivity.
  - intros Hneg pre i Hpre Hi. rewrite (Hv pre i Hpre Hi).
    specialize (Hneg i Hi).
    destruct (values ids [i] <? 0)%Z eqn:E; [reflexivity |].
    apply Z.ltb_ge in E. lia.
Qed.

Lemma gatherDropNegatives_is_gather_witness :
  exists res,
    gatherDropNegatives matrix23 (tensor1d DInt32 [1; 2; 0; 2]%Z) 1 = Ok res /\
    values res [1; 3] = values (ArrayOps.gather matrix23
                                  (tensor1d DInt32 [1; 2; 0; 2]%Z) 1) [1; 3].
Proof.
  destruct (gatherDropNegatives_is_gather matrix23
              (tensor1d DInt32 [1; 2; 0; 2]%Z) 4 3 [2] eq_refl eq_refl)
    as (res & Hres & _ & Hpos & _).
  exists res. split; [exact Hres |].
  apply (Hpos ltac:(intros [| [| [| [| i]]]] Hi; simpl; lia) [1] 3);
    [reflexivity | lia].
Defined.

(* ------------------------------------------------------------------ *)
(** ** The backward reconstruction is the adjoint of the kernel's sum *)









